(** * A shallow embedding of the Caesar cipher tool (src/main.py).

    A Python [str] is a sequence of Unicode code points; it is modelled
    as [list Z].  The Unicode character classes that the code consults
    ([str.isalpha], [str.isupper]) are parameters of the [Cipher]
    section, so that the theorems about [CaesarCipher.cipher] hold for any
    classification, in particular for Python's.  Concrete tables that
    agree with Python on U+0000..U+00FF are given after the section and
    used to run the code on concrete inputs. *)

From Stdlib Require Import ZArith List String Ascii Bool Lia.
Import ListNotations.
Open Scope Z_scope.

(** Python exceptions raised and caught by the code. *)
Inductive exn :=
| ValueError (msg : string)
| FileNotFoundError
| PermissionError
| OSError.

(** The error monad of code that may raise. *)
Definition M (A : Type) : Type := sum exn A.
Definition ret {A} (a : A) : M A := inr a.
Definition raise {A} (e : exn) : M A := inl e.
Definition bind {A B} (m : M A) (k : A -> M B) : M B :=
  match m with inl e => inl e | inr a => k a end.
Notation "x <- m ;; k" := (bind m (fun x => k))
  (at level 61, m at next level, right associativity).

(** An ASCII string literal as a Python [str]. *)
Definition str (s : string) : list Z :=
  map (fun a => Z.of_nat (nat_of_ascii a)) (list_ascii_of_string s).

(** [ord] of the characters used in the code. *)
Definition ord_A : Z := 65.
Definition ord_a : Z := 97.

(** The fields set by [CaesarCipher.__init__]. *)
Definition alphabet_size : Z := 26.
Definition min_shift : Z := 1.
Definition max_shift : Z := 25.

Section Cipher.

(** [char.isalpha()] and [char.isupper()] on one code point. *)
Variable isalpha isupper : Z -> bool.

(** The body of the [for char in text] loop of [cipher]. *)
Definition cipher_char (shift : Z) (char : Z) : Z :=
  if isalpha char then
    let base := if isupper char then ord_A else ord_a in
    let shifted := (char - base + shift) mod alphabet_size + base in
    shifted
  else char.

(** [for char in text: result += ...], with [result] threaded. *)
Fixpoint cipher_loop (result : list Z) (shift : Z) (text : list Z) : list Z :=
  match text with
  | [] => result
  | char :: rest => cipher_loop (result ++ [cipher_char shift char]) shift rest
  end.

(** [CaesarCipher.cipher(text, shift, decrypt)]. *)
Definition cipher (text : list Z) (shift : Z) (decrypt : bool) : M (list Z) :=
  if negb ((min_shift <=? shift) && (shift <=? max_shift)) then
    raise (ValueError "Shift must be between 1 and 25")
  else
    let shift := if decrypt then - shift else shift in
    ret (cipher_loop [] shift text).

Definition encrypt (text : list Z) (shift : Z) : M (list Z) :=
  cipher text shift false.

Definition decrypt (text : list Z) (shift : Z) : M (list Z) :=
  cipher text shift true.

(** A Python dict with insertion order: [d[k] = v] overwrites the value
    of an existing key in place and appends a new key at the end. *)
Fixpoint dict_set {V} (d : list (Z * V)) (k : Z) (v : V) : list (Z * V) :=
  match d with
  | [] => [(k, v)]
  | (k', v') :: rest =>
      if k' =? k then (k, v) :: rest else (k', v') :: dict_set rest k v
  end.

Fixpoint dict_get {V} (d : list (Z * V)) (k : Z) : option V :=
  match d with
  | [] => None
  | (k', v') :: rest => if k' =? k then Some v' else dict_get rest k
  end.

(** [range(lo, hi)]. *)
Definition range (lo hi : Z) : list Z :=
  map (fun i => lo + Z.of_nat i) (seq 0 (Z.to_nat (hi - lo))).

(** The [for shift in range(...)] loop of [brute_force_decrypt]. *)
Fixpoint brute_force_loop (encrypted_text : list Z) (results : list (Z * list Z))
    (shifts : list Z) : M (list (Z * list Z)) :=
  match shifts with
  | [] => ret results
  | shift :: rest =>
      decrypted <- decrypt encrypted_text shift ;;
      brute_force_loop encrypted_text (dict_set results shift decrypted) rest
  end.

(** [CaesarCipher.brute_force_decrypt(encrypted_text)]. *)
Definition brute_force_decrypt (encrypted_text : list Z) : M (list (Z * list Z)) :=
  brute_force_loop encrypted_text [] (range min_shift (max_shift + 1)).

End Cipher.

(** ** Files *)

(** [p.rfind(x)]: the last index of [x] in [p], or [-1]. *)
Fixpoint rfind_from (x : Z) (i : Z) (p : list Z) (found : Z) : Z :=
  match p with
  | [] => found
  | c :: rest => rfind_from x (i + 1) rest (if c =? x then i else found)
  end.

Definition rfind (x : Z) (p : list Z) : Z := rfind_from x 0 p (-1).

Definition ord_slash : Z := 47.
Definition ord_dot : Z := 46.

(** The [while filenameIndex < dotIndex] loop of [genericpath._splitext]:
    [fuel] is the number of iterations left. *)
Fixpoint splitext_scan (p : list Z) (dotIndex filenameIndex : Z) (fuel : nat)
    : list Z * list Z :=
  match fuel with
  | O => (p, [])
  | S fuel' =>
      if nth (Z.to_nat filenameIndex) p ord_dot =? ord_dot
      then splitext_scan p dotIndex (filenameIndex + 1) fuel'
      else (firstn (Z.to_nat dotIndex) p, skipn (Z.to_nat dotIndex) p)
  end.

(** [posixpath.splitext(p)] ([sep] is ['/'], [extsep] is ['.']). *)
Definition splitext (p : list Z) : list Z * list Z :=
  let sepIndex := rfind ord_slash p in
  let dotIndex := rfind ord_dot p in
  if sepIndex <? dotIndex then
    let filenameIndex := sepIndex + 1 in
    splitext_scan p dotIndex filenameIndex (Z.to_nat (dotIndex - filenameIndex))
  else (p, []).

(** The file system seen by [open]. A path string names a file through
    [fs_resolve]: "./p", "d//p", symbolic links and hard links to one file
    all resolve to the same name. The other fields are indexed by the file
    a path resolves to: its text content when it exists; whether it may be
    read; whether it may be written (or created, when it does not exist);
    whether its directory is missing; whether reading it fails with
    another I/O error; and, when writing to it fails (a full disk, an I/O
    error), how many characters reach the file before the error. *)
Record fs := {
  fs_resolve : list Z -> list Z;
  fs_file : list Z -> option (list Z);
  fs_readable : list Z -> bool;
  fs_writable : list Z -> bool;
  fs_dir_missing : list Z -> bool;
  fs_broken : list Z -> bool;
  fs_write_fails : list Z -> option nat
}.

Definition list_Z_eqb (a b : list Z) : bool :=
  if list_eq_dec Z.eq_dec a b then true else false.

(** What reading the path [p] would give: the content of the file it names. *)
Definition contents (s : fs) (p : list Z) : option (list Z) := fs_file s (fs_resolve s p).

(** [with open(path, 'r', encoding='utf-8') as f: f.read()]. *)
Definition read_file (s : fs) (path : list Z) : M (list Z) :=
  let f := fs_resolve s path in
  match fs_file s f with
  | None => raise FileNotFoundError
  | Some content =>
      if negb (fs_readable s f) then raise PermissionError
      else if fs_broken s f then raise OSError
      else ret content
  end.

(** The file [f] now holds [content]. *)
Definition set_file (s : fs) (f content : list Z) : fs := {|
  fs_resolve := fs_resolve s;
  fs_file := fun q => if list_Z_eqb q f then Some content else fs_file s q;
  fs_readable := fs_readable s;
  fs_writable := fs_writable s;
  fs_dir_missing := fs_dir_missing s;
  fs_broken := fs_broken s;
  fs_write_fails := fs_write_fails s |}.

(** [with open(path, 'w', encoding='utf-8') as f: f.write(content)]:
    [open] fails without touching anything when the file may not be
    written (or created) or its directory is missing; once open, the file
    is truncated (or created), so a failing write or close leaves only
    the characters written before the error. The file system afterwards
    comes with the outcome. *)
Definition write_file (s : fs) (path content : list Z) : fs * M unit :=
  let f := fs_resolve s path in
  let opened :=
    match fs_write_fails s f with
    | None => (set_file s f content, ret tt)
    | Some n => (set_file s f (firstn n content), raise OSError)
    end in
  match fs_file s f with
  | Some _ => if fs_writable s f then opened else (s, raise PermissionError)
  | None =>
      if fs_dir_missing s f then (s, raise FileNotFoundError)
      else if fs_writable s f then opened else (s, raise PermissionError)
  end.

(** What the [except] clauses print. *)
Inductive report :=
| ReportNotFound (input_file : list Z)
| ReportPermissionDenied
| ReportError (e : exn).

(** The [except] clauses of [encrypt_file] and [decrypt_file]. *)
Definition report_of (input_file : list Z) (e : exn) : report :=
  match e with
  | FileNotFoundError => ReportNotFound input_file
  | PermissionError => ReportPermissionDenied
  | e => ReportError e
  end.

(** [f"{name}{suffix}{ext}"] with [name, ext = os.path.splitext(input_file)]. *)
Definition default_output (suffix input_file : list Z) : list Z :=
  let (name, ext) := splitext input_file in name ++ suffix ++ ext.

Definition suffix_encrypted : list Z := str "_encrypted".
Definition suffix_decrypted : list Z := str "_decrypted".

Section Files.

Variable isalpha isupper : Z -> bool.

(** The common shape of [encrypt_file] and [decrypt_file]: the body of the
    [try], with [transform] the cipher call and [suffix] the default
    output suffix; the result is the returned [bool], the file system
    afterwards and the lines printed. *)
(** [if output_file is None: ...]. *)
Definition resolve_output (suffix input_file : list Z) (output_file : option (list Z))
    : list Z :=
  match output_file with
  | None => default_output suffix input_file
  | Some o => o
  end.

Definition transform_file (transform : list Z -> Z -> M (list Z)) (suffix : list Z)
    (s : fs) (input_file : list Z) (shift : Z) (output_file : option (list Z))
    : bool * fs * list report :=
  match read_file s input_file with
  | inl e => (false, s, [report_of input_file e])
  | inr content =>
      match transform content shift with
      | inl e => (false, s, [report_of input_file e])
      | inr out =>
          let output_file := resolve_output suffix input_file output_file in
          match write_file s output_file out with
          | (s', inr _) => (true, s', [])
          | (s', inl e) => (false, s', [report_of input_file e])
          end
      end
  end.

(** [CaesarCipher.encrypt_file(input_file, shift, output_file)]. *)
Definition encrypt_file := transform_file (encrypt isalpha isupper) suffix_encrypted.

(** [CaesarCipher.decrypt_file(input_file, shift, output_file)]. *)
Definition decrypt_file := transform_file (decrypt isalpha isupper) suffix_decrypted.

End Files.

(** ** Python's character classes on U+0000..U+00FF

    [str.isalpha], [str.isupper] and [str.islower] of a one-character
    string, for the code points U+0000..U+00FF (ASCII and Latin-1); the
    tables answer [false] above U+00FF, where no concrete input of this
    file lies. *)
Definition py_isalpha (c : Z) : bool :=
  ((65 <=? c) && (c <=? 90)) || ((97 <=? c) && (c <=? 122))
  || (c =? 170) || (c =? 181) || (c =? 186)
  || ((192 <=? c) && (c <=? 214)) || ((216 <=? c) && (c <=? 246))
  || ((248 <=? c) && (c <=? 255)).

Definition py_isupper (c : Z) : bool :=
  ((65 <=? c) && (c <=? 90))
  || ((192 <=? c) && (c <=? 214)) || ((216 <=? c) && (c <=? 222)).

Definition py_islower (c : Z) : bool :=
  ((97 <=? c) && (c <=? 122))
  || (c =? 170) || (c =? 181) || (c =? 186)
  || ((223 <=? c) && (c <=? 246)) || ((248 <=? c) && (c <=? 255)).

(** [str.isalpha] on U+0000..U+00FF and on the CJK Unified Ideographs
    U+4E00..U+9FEF (Unicode category Lo, for which Python's [isalpha]
    holds and [isupper] does not). *)
Definition py_isalpha_cjk (c : Z) : bool :=
  py_isalpha c || ((19968 <=? c) && (c <=? 40943)).

(** The methods of [CaesarCipher] with Python's character classes. *)
Definition py_cipher := cipher py_isalpha py_isupper.
Definition py_encrypt := encrypt py_isalpha py_isupper.
Definition py_decrypt := decrypt py_isalpha py_isupper.
Definition py_brute_force_decrypt := brute_force_decrypt py_isalpha py_isupper.

(** ** The command-line interface ([CaesarCipherCLI] and [main])

    The interface is run on a finite list of input events: each [input()]
    call consumes one line, or one Ctrl-C, and raises [EOFError] at the
    end of the list.  What it prints is recorded as a list of events, one
    per message of the code (the banners and prompts carry no data and are
    recorded as [OutTitle] or not at all). *)

Inductive input_event :=
| Line (l : list Z)
| Interrupt.

(** Exceptions that travel through the interface: an [Exception] of the
    cipher, the [EOFError] of [input()], and the two [BaseException]s
    [KeyboardInterrupt] and [SystemExit]. *)
Inductive cli_exn :=
| PyExn (e : exn)
| EOFError
| KeyboardInterrupt
| SystemExit (code : Z).

(** [except Exception] catches exactly these. *)
Definition is_exception (e : cli_exn) : bool :=
  match e with PyExn _ | EOFError => true | _ => false end.

Inductive out_event :=
| OutHeader
| OutMenu
| OutTitle (title : string)
| OutGoodbye
| OutNotANumber
| OutShiftOutOfRange
| OutMessageEmpty
| OutPathEmpty
| OutEncrypted (message encrypted : list Z) (shift : Z)
| OutEncryptionFailed (e : cli_exn)
| OutDecrypted (message decrypted : list Z) (shift : Z)
| OutDecryptionFailed (e : cli_exn)
| OutBruteForce (message : list Z) (results : list (Z * list Z))
| OutFileReport (r : report)
| OutFileEncrypted (output_file : list Z) (shift : Z)
| OutFileDecrypted (output_file : list Z) (shift : Z)
| OutExamples (rows : list (list Z * Z * list Z * list Z))
| OutHelp
| OutThankYou
| OutInvalidChoice
| OutUnexpectedError (e : cli_exn).

(** The state of a run: input left, file system, printed events. *)
Record cli := mk_cli {
  cli_inputs : list input_event;
  cli_fs : fs;
  cli_out : list out_event
}.

(** State passing with exceptions. *)
Definition CLI (A : Type) : Type := cli -> sum cli_exn A * cli.
Definition cret {A} (a : A) : CLI A := fun st => (inr a, st).
Definition cthrow {A} (e : cli_exn) : CLI A := fun st => (inl e, st).
Definition cbind {A B} (m : CLI A) (k : A -> CLI B) : CLI B :=
  fun st => match m st with
            | (inl e, st') => (inl e, st')
            | (inr a, st') => k a st'
            end.
Notation "x <-- m ;;; k" := (cbind m (fun x => k))
  (at level 61, m at next level, right associativity).

(** [try: m except ...]: [handler e] is [None] when no clause matches. *)
Definition ccatch {A} (m : CLI A) (handler : cli_exn -> option (CLI A)) : CLI A :=
  fun st => match m st with
            | (inl e, st') =>
                match handler e with Some h => h st' | None => (inl e, st') end
            | r => r
            end.

Definition print (o : out_event) : CLI unit :=
  fun st => (inr tt, mk_cli (cli_inputs st) (cli_fs st) (cli_out st ++ [o])).

(** A cipher call: its [Exception] travels on as [PyExn]. *)
Definition lift {A} (m : M A) : CLI A :=
  match m with inl e => cthrow (PyExn e) | inr a => cret a end.

(** [input(prompt)]. *)
Definition input : CLI (list Z) :=
  fun st => match cli_inputs st with
            | [] => (inl EOFError, st)
            | Interrupt :: rest => (inl KeyboardInterrupt, mk_cli rest (cli_fs st) (cli_out st))
            | Line l :: rest => (inr l, mk_cli rest (cli_fs st) (cli_out st))
            end.

Definition sys_exit {A} (code : Z) : CLI A := cthrow (SystemExit code).

Definition list_Z_nonempty (l : list Z) : bool :=
  match l with [] => false | _ => true end.

Section Interface.

(** [char.isalpha()], [char.isupper()], [char.isspace()] and [int(s)]
    ([None] when [int] raises [ValueError]). *)
Variable isalpha isupper isspace : Z -> bool.
Variable parse_int : list Z -> option Z.

Fixpoint lstrip (l : list Z) : list Z :=
  match l with
  | c :: rest => if isspace c then lstrip rest else l
  | [] => []
  end.

(** [s.strip()]. *)
Definition strip (l : list Z) : list Z := rev (lstrip (rev (lstrip l))).

(** [CaesarCipherCLI.get_user_input(prompt)]. *)
Definition get_user_input : CLI (list Z) :=
  ccatch (l <-- input ;;; cret (strip l))
    (fun e => match e with
              | KeyboardInterrupt => Some (_ <-- print OutGoodbye ;;; sys_exit 0)
              | _ => None
              end).

(** The [while True] loop of [CaesarCipherCLI.get_valid_shift]: each round
    consumes one input event, so the loop recurses on the input left.
    [int(input(prompt))] raising [ValueError] prints the "valid number"
    message, an out-of-range number the range message; [EOFError] is not
    caught. *)
Fixpoint get_valid_shift_loop (inputs : list input_event) (s : fs) (out : list out_event)
    : sum cli_exn Z * cli :=
  match inputs with
  | [] => (inl EOFError, mk_cli [] s out)
  | Interrupt :: rest => (inl (SystemExit 0), mk_cli rest s (out ++ [OutGoodbye]))
  | Line l :: rest =>
      match parse_int l with
      | None => get_valid_shift_loop rest s (out ++ [OutNotANumber])
      | Some shift =>
          if (min_shift <=? shift) && (shift <=? max_shift)
          then (inr shift, mk_cli rest s out)
          else get_valid_shift_loop rest s (out ++ [OutShiftOutOfRange])
      end
  end.

Definition get_valid_shift : CLI Z :=
  fun st => get_valid_shift_loop (cli_inputs st) (cli_fs st) (cli_out st).

(** [CaesarCipherCLI.encrypt_message]. *)
Definition encrypt_message : CLI unit :=
  _ <-- print (OutTitle "ENCRYPT MESSAGE") ;;;
  message <-- get_user_input ;;;
  if negb (list_Z_nonempty message) then print OutMessageEmpty else
  shift <-- get_valid_shift ;;;
  ccatch (encrypted <-- lift (encrypt isalpha isupper message shift) ;;;
          print (OutEncrypted message encrypted shift))
    (fun e => if is_exception e then Some (print (OutEncryptionFailed e)) else None).

(** [CaesarCipherCLI.decrypt_message]. *)
Definition decrypt_message : CLI unit :=
  _ <-- print (OutTitle "DECRYPT MESSAGE") ;;;
  message <-- get_user_input ;;;
  if negb (list_Z_nonempty message) then print OutMessageEmpty else
  shift <-- get_valid_shift ;;;
  ccatch (decrypted <-- lift (decrypt isalpha isupper message shift) ;;;
          print (OutDecrypted message decrypted shift))
    (fun e => if is_exception e then Some (print (OutDecryptionFailed e)) else None).

(** [CaesarCipherCLI.brute_force_decrypt]. *)
Definition brute_force_menu : CLI unit :=
  _ <-- print (OutTitle "BRUTE FORCE DECRYPT") ;;;
  message <-- get_user_input ;;;
  if negb (list_Z_nonempty message) then print OutMessageEmpty else
  results <-- lift (brute_force_decrypt isalpha isupper message) ;;;
  print (OutBruteForce message results).

(** [self.cipher.encrypt_file(...)] and [self.cipher.decrypt_file(...)]
    on the file system of the run, their reports printed. *)
Definition run_file_op
    (op : fs -> list Z -> Z -> option (list Z) -> bool * fs * list report)
    (input_file : list Z) (shift : Z) (output_file : option (list Z)) : CLI bool :=
  fun st =>
    match op (cli_fs st) input_file shift output_file with
    | (ok, s', msgs) =>
        (inr ok, mk_cli (cli_inputs st) s' (cli_out st ++ map OutFileReport msgs))
    end.

(** [CaesarCipherCLI.encrypt_file_menu]. *)
Definition encrypt_file_menu : CLI unit :=
  _ <-- print (OutTitle "ENCRYPT FILE") ;;;
  input_file <-- get_user_input ;;;
  if negb (list_Z_nonempty input_file) then print OutPathEmpty else
  shift <-- get_valid_shift ;;;
  output <-- get_user_input ;;;
  let output_file := if list_Z_nonempty output then Some output else None in
  _ <-- print (OutTitle "Encrypting file...") ;;;
  success <-- run_file_op (encrypt_file isalpha isupper) input_file shift output_file ;;;
  if success then
    let final_output :=
      match output_file with
      | Some o => o
      | None => fst (splitext input_file) ++ str "_encrypted" ++ snd (splitext input_file)
      end in
    print (OutFileEncrypted final_output shift)
  else cret tt.

(** [CaesarCipherCLI.decrypt_file_menu]. *)
Definition decrypt_file_menu : CLI unit :=
  _ <-- print (OutTitle "DECRYPT FILE") ;;;
  input_file <-- get_user_input ;;;
  if negb (list_Z_nonempty input_file) then print OutPathEmpty else
  shift <-- get_valid_shift ;;;
  output <-- get_user_input ;;;
  let output_file := if list_Z_nonempty output then Some output else None in
  _ <-- print (OutTitle "Decrypting file...") ;;;
  success <-- run_file_op (decrypt_file isalpha isupper) input_file shift output_file ;;;
  if success then
    let final_output :=
      match output_file with
      | Some o => o
      | None => fst (splitext input_file) ++ str "_decrypted" ++ snd (splitext input_file)
      end in
    print (OutFileDecrypted final_output shift)
  else cret tt.

(** The [examples] list of [show_examples]. *)
Definition examples : list (list Z * Z) :=
  [(str "Hello World!", 3); (str "Python Programming", 13);
   (str "Attack at dawn!", 5); (str "INTERNSHIP PROJECT", 7);
   (str "Cryptography is fun!", 12)].

Fixpoint show_examples_loop (exs : list (list Z * Z))
    : CLI (list (list Z * Z * list Z * list Z)) :=
  match exs with
  | [] => cret []
  | (message, shift) :: rest =>
      encrypted <-- lift (encrypt isalpha isupper message shift) ;;;
      decrypted <-- lift (decrypt isalpha isupper encrypted shift) ;;;
      rows <-- show_examples_loop rest ;;;
      cret ((message, shift, encrypted, decrypted) :: rows)
  end.

(** [CaesarCipherCLI.show_examples]. *)
Definition show_examples : CLI unit :=
  rows <-- show_examples_loop examples ;;; print (OutExamples rows).

(** [continue_choice.lower() == 'q']: only "q" and "Q" lower to "q". *)
Definition is_q (l : list Z) : bool := list_Z_eqb l [113] || list_Z_eqb l [81].

Definition choices_1_to_7 : list (list Z) :=
  map str ["1"; "2"; "3"; "4"; "5"; "6"; "7"]%string.

(** The dispatch on [choice] in [run]; returns [self.running]. *)
Definition dispatch (choice : list Z) : CLI bool :=
  if list_Z_eqb choice (str "1") then _ <-- encrypt_message ;;; cret true
  else if list_Z_eqb choice (str "2") then _ <-- decrypt_message ;;; cret true
  else if list_Z_eqb choice (str "3") then _ <-- brute_force_menu ;;; cret true
  else if list_Z_eqb choice (str "4") then _ <-- encrypt_file_menu ;;; cret true
  else if list_Z_eqb choice (str "5") then _ <-- decrypt_file_menu ;;; cret true
  else if list_Z_eqb choice (str "6") then _ <-- show_examples ;;; cret true
  else if list_Z_eqb choice (str "7") then _ <-- print OutHelp ;;; cret true
  else if list_Z_eqb choice (str "8") then _ <-- print OutThankYou ;;; cret false
  else _ <-- print OutInvalidChoice ;;; cret true.

(** One round of the [while self.running] loop of [run]. *)
Definition iteration : CLI bool :=
  _ <-- print OutMenu ;;;
  choice <-- get_user_input ;;;
  running <-- dispatch choice ;;;
  if running && existsb (list_Z_eqb choice) choices_1_to_7 then
    continue_choice <-- get_user_input ;;;
    if is_q continue_choice then _ <-- print OutGoodbye ;;; cret false
    else cret true
  else cret running.

(** The [while self.running] loop; [fuel] bounds the number of rounds
    ([None] when it runs out: every round reads an input, so
    [S (length inputs)] rounds are enough). *)
Fixpoint run_loop (fuel : nat) (st : cli) : option (sum cli_exn unit * cli) :=
  match fuel with
  | O => None
  | S fuel' =>
      match iteration st with
      | (inl e, st') => Some (inl e, st')
      | (inr true, st') => run_loop fuel' st'
      | (inr false, st') => Some (inr tt, st')
      end
  end.

(** [main()]: the exit status, what was printed and the final files.
    [SystemExit] ends the process with its code; [KeyboardInterrupt] and
    [Exception] are caught by [main]; a normal return exits with 0. *)
Definition main (inputs : list input_event) (s : fs) : option (Z * list out_event * fs) :=
  match print OutHeader (mk_cli inputs s []) with
  | (_, st0) =>
      match run_loop (S (List.length inputs)) st0 with
      | None => None
      | Some (inr _, st) => Some (0, cli_out st, cli_fs st)
      | Some (inl (SystemExit code), st) => Some (code, cli_out st, cli_fs st)
      | Some (inl KeyboardInterrupt, st) => Some (0, cli_out st ++ [OutGoodbye], cli_fs st)
      | Some (inl e, st) => Some (1, cli_out st ++ [OutUnexpectedError e], cli_fs st)
      end
  end.

End Interface.

(** [str.isspace] of a one-character string on U+0000..U+00FF. *)
Definition py_isspace (c : Z) : bool :=
  ((9 <=? c) && (c <=? 13)) || ((28 <=? c) && (c <=? 32)) || (c =? 133) || (c =? 160).

(** The digits of [int(s)] in base 10: single underscores may separate
    digits. *)
Fixpoint py_digits (l : list Z) (acc : Z) (prev_digit : bool) : option Z :=
  match l with
  | [] => if prev_digit then Some acc else None
  | c :: rest =>
      if (48 <=? c) && (c <=? 57) then py_digits rest (acc * 10 + (c - 48)) true
      else if (c =? 95) && prev_digit then py_digits rest acc false
      else None
  end.

(** [int(s)] on strings of U+0000..U+00FF (whose only decimal digits are
    '0'..'9'): surrounding white space, an optional sign, digits. *)
Definition py_int (l : list Z) : option Z :=
  match strip py_isspace l with
  | 45 :: rest => option_map Z.opp (py_digits rest 0 false)
  | 43 :: rest => py_digits rest 0 false
  | t => py_digits t 0 false
  end.

(** Character classes that treat the ASCII letters as Python does. *)
Definition ascii_classes (isalpha isupper : Z -> bool) : Prop :=
  (forall x, 65 <= x <= 90 -> isalpha x = true /\ isupper x = true)
  /\ (forall x, 97 <= x <= 122 -> isalpha x = true /\ isupper x = false).

(** A sample text: "Hé 5!" (a non-ASCII letter, a space, a digit and
    punctuation). *)
Definition sample_text : list Z := [72; 233; 32; 53; 33].

(** The shape of a run of an interface program [m]: it only consumes
    input, only appends printed events satisfying [P], and only raises
    exceptions satisfying [Q]. *)
Definition wb {A} (P : out_event -> Prop) (Q : cli_exn -> Prop) (m : CLI A) : Prop :=
  forall st,
  match m st with
  | (r, st') =>
      (exists pre, cli_inputs st = pre ++ cli_inputs st')
      /\ (exists new, cli_out st' = cli_out st ++ new /\ Forall P new)
      /\ (forall e, r = inl e -> Q e)
  end.

(** The messages that report a failed cipher call. *)
Definition is_cipher_failure (o : out_event) : bool :=
  match o with OutEncryptionFailed _ | OutDecryptionFailed _ => true | _ => false end.

(** A file system with one readable and writable file "msg.txt". *)
Definition demo_fs : fs := {|
  fs_resolve := fun p => p;
  fs_file := fun q => if list_Z_eqb q (str "msg.txt") then Some (str "Hello, World!") else None;
  fs_readable := fun _ => true;
  fs_writable := fun _ => true;
  fs_dir_missing := fun _ => false;
  fs_broken := fun _ => false;
  fs_write_fails := fun _ => None |}.

(** A session: encrypt "Hello" after two rejected shifts, then the input
    ends at the continue prompt. *)
Definition demo_inputs : list input_event :=
  map Line [str "1"; str " Hello "; str "x"; str "30"; str "3"].

(** Three lines that [int] rejects, takes out of range and accepts. *)
Definition shift_demo_start : cli :=
  mk_cli (map Line [str "abc"; str "0"; str " 12 "; str "9"]) demo_fs [].

(** The messages that announce where a file menu saved its output. *)
Definition is_file_announcement (o : out_event) : bool :=
  match o with OutFileEncrypted _ _ | OutFileDecrypted _ _ => true | _ => false end.

(** From [st] to [stk] the files are unchanged and no announcement of a
    saved file was printed. *)
Definition quiet_since (st stk : cli) : Prop :=
  cli_fs stk = cli_fs st
  /\ exists new, cli_out stk = cli_out st ++ new
     /\ Forall (fun o => is_file_announcement o = false) new.

Example splitext_examples :
  splitext (str "dir/notes.txt") = (str "dir/notes", str ".txt")
  /\ splitext (str "a.tar.gz") = (str "a.tar", str ".gz")
  /\ splitext (str ".bashrc") = (str ".bashrc", [])
  /\ splitext (str "d.x/README") = (str "d.x/README", [])
  /\ splitext (str "..x") = (str "..x", []).
Proof. vm_compute. repeat split. Qed.

Example py_int_examples :
  py_int (str " 7 ") = Some 7 /\ py_int (str "-3") = Some (-3)
  /\ py_int (str "1_0") = Some 10 /\ py_int (str "1__0") = None
  /\ py_int (str "abc") = None /\ py_int [] = None.
Proof. vm_compute. repeat split. Qed.

Example py_encrypt_hello : py_encrypt (str "Hello World!") 3 = inr (str "Khoor Zruog!").
Proof. vm_compute. reflexivity. Qed.

(** ** The cipher *)

Section CipherFacts.

Variable isalpha isupper : Z -> bool.

Lemma cipher_loop_app (result : list Z) (shift : Z) (text : list Z) :
  cipher_loop isalpha isupper result shift text
  = result ++ map (cipher_char isalpha isupper shift) text.
Proof.
  revert result; induction text as [|c text IH]; intros result; simpl.
  - now rewrite app_nil_r.
  - rewrite IH, <- app_assoc; reflexivity.
Qed.

Lemma cipher_valid (text : list Z) (shift : Z) (d : bool) :
  1 <= shift <= 25 ->
  cipher isalpha isupper text shift d
  = inr (map (cipher_char isalpha isupper (if d then - shift else shift)) text).
Proof.
  intros Hs; unfold cipher, min_shift, max_shift.
  replace ((1 <=? shift) && (shift <=? 25)) with true
    by (symmetry; apply andb_true_iff; split; apply Z.leb_le; lia).
  simpl; unfold ret; now rewrite cipher_loop_app.
Qed.

Lemma cipher_char_letter (shift c : Z) :
  isalpha c = true ->
  let c' := cipher_char isalpha isupper shift c in
  if isupper c then 65 <= c' <= 90 else 97 <= c' <= 122.
Proof.
  intros Ha; unfold cipher_char; rewrite Ha.
  unfold alphabet_size, ord_A, ord_a.
  destruct (isupper c);
    [ pose proof (Z.mod_pos_bound (c - 65 + shift) 26 ltac:(lia))
    | pose proof (Z.mod_pos_bound (c - 97 + shift) 26 ltac:(lia)) ]; lia.
Qed.

Lemma nth_error_map_inv {A B} (f : A -> B) (l : list A) (i : nat) (x : A) :
  nth_error l i = Some x -> nth_error (map f l) i = Some (f x).
Proof. intros H; now rewrite nth_error_map, H. Qed.

End CipherFacts.

(** An ASCII-only round trip: when every alphabetic character of [text]
    is one of 'A'..'Z', 'a'..'z', decrypting the encryption gives [text]
    back (for classifications that treat the ASCII letters as Python does). *)
Lemma cipher_char_roundtrip_ascii (isalpha isupper : Z -> bool) (shift c : Z) :
  (forall x, 65 <= x <= 90 -> isalpha x = true /\ isupper x = true) ->
  (forall x, 97 <= x <= 122 -> isalpha x = true /\ isupper x = false) ->
  (isalpha c = true -> 65 <= c <= 90 \/ 97 <= c <= 122) ->
  cipher_char isalpha isupper (- shift) (cipher_char isalpha isupper shift c) = c.
Proof.
  intros Hup Hlo Hc.
  destruct (isalpha c) eqn:Ha.
  2:{ unfold cipher_char at 2; rewrite Ha; unfold cipher_char; now rewrite Ha. }
  pose proof (cipher_char_letter isalpha isupper shift c Ha) as Hr; simpl in Hr.
  destruct (Hc eq_refl) as [Hu | Hl].
  - destruct (Hup c Hu) as [_ Huc]; rewrite Huc in Hr.
    destruct (Hup _ Hr) as [Ha' Hu'].
    unfold cipher_char at 1; rewrite Ha', Hu'.
    unfold cipher_char; rewrite Ha, Huc; unfold ord_A, alphabet_size.
    replace ((c - 65 + shift) mod 26 + 65 - 65 + - shift)
      with ((c - 65 + shift) mod 26 - shift) by lia.
    rewrite Zminus_mod_idemp_l.
    replace (c - 65 + shift - shift) with (c - 65) by lia.
    rewrite Z.mod_small by lia; lia.
  - destruct (Hlo c Hl) as [_ Hlc]; rewrite Hlc in Hr.
    destruct (Hlo _ Hr) as [Ha' Hl'].
    unfold cipher_char at 1; rewrite Ha', Hl'.
    unfold cipher_char; rewrite Ha, Hlc; unfold ord_a, alphabet_size.
    replace ((c - 97 + shift) mod 26 + 97 - 97 + - shift)
      with ((c - 97 + shift) mod 26 - shift) by lia.
    rewrite Zminus_mod_idemp_l.
    replace (c - 97 + shift - shift) with (c - 97) by lia.
    rewrite Z.mod_small by lia; lia.
Qed.

(** Decrypting the encryption of a text with the same valid shift gives
    the text back when all its letters are ASCII letters. *)
Lemma cipher_roundtrip_ascii (isalpha isupper : Z -> bool) (text : list Z) (shift : Z) :
  (forall x, 65 <= x <= 90 -> isalpha x = true /\ isupper x = true) ->
  (forall x, 97 <= x <= 122 -> isalpha x = true /\ isupper x = false) ->
  Forall (fun c => isalpha c = true -> 65 <= c <= 90 \/ 97 <= c <= 122) text ->
  1 <= shift <= 25 ->
  bind (encrypt isalpha isupper text shift) (fun e => decrypt isalpha isupper e shift)
  = inr text.
Proof.
  intros Hup Hlo Ht Hs; unfold encrypt, decrypt.
  rewrite cipher_valid by exact Hs; simpl.
  rewrite cipher_valid by exact Hs; f_equal.
  rewrite map_map.
  induction Ht as [|c text Hc Ht IH]; simpl; [reflexivity|].
  rewrite IH, cipher_char_roundtrip_ascii; auto.
Qed.

(** ** Claims about [cipher] *)

(** C1 (the round trip [decrypt(encrypt(t, s), s) == t] for every text)
    fails on the non-ASCII letter 'é' (U+00E9): [isalpha] holds and
    [isupper] does not, so it is rotated inside 'a'..'z' as if it were the
    ASCII letter at offset 233 - 97; encryption with shift 1 gives "h" and
    decryption of "h" gives "g", not "é". *)
Theorem cipher_roundtrip_fails_on_non_ascii_letter :
  py_encrypt [233] 1 = inr (str "h")
  /\ py_decrypt (str "h") 1 = inr (str "g")
  /\ bind (py_encrypt [233] 1) (fun e => py_decrypt e 1) <> inr [233].
Proof. vm_compute. split; [reflexivity | split; [reflexivity | congruence]]. Qed.

(** C2 (characters of non-alphabetic scripts are kept unchanged) fails
    on the CJK ideograph '中' (U+4E2D): Python's [isalpha] holds for it
    and [isupper] does not, so [cipher] rotates it inside 'a'..'z' as if
    it were the letter at offset 20013 - 97; with shift 1, encryption
    gives "b" and decryption gives "z" (same defect as C1). *)
Theorem cipher_rotates_cjk_ideograph :
  py_isalpha_cjk 20013 = true /\ py_isupper 20013 = false
  /\ encrypt py_isalpha_cjk py_isupper [20013] 1 = inr (str "b")
  /\ decrypt py_isalpha_cjk py_isupper [20013] 1 = inr (str "z")
  /\ encrypt py_isalpha_cjk py_isupper [20013] 1 <> inr [20013].
Proof.
  vm_compute.
  split; [reflexivity|]; split; [reflexivity|]; split; [reflexivity|];
    split; [reflexivity | congruence].
Qed.

(** For a valid shift and either direction, every character of the
    input for which [isalpha] is false is found unchanged at the same
    position of the output. *)
Theorem cipher_keeps_non_alpha (isalpha isupper : Z -> bool)
    (text : list Z) (shift : Z) (d : bool) :
  1 <= shift <= 25 ->
  exists out, cipher isalpha isupper text shift d = inr out
    /\ forall i c, nth_error text i = Some c -> isalpha c = false ->
       nth_error out i = Some c.
Proof.
  intros Hs; rewrite cipher_valid by exact Hs; eexists; split; [reflexivity|].
  intros i c Hi Ha; rewrite (nth_error_map_inv _ _ _ _ Hi).
  unfold cipher_char; now rewrite Ha.
Qed.

(** C3: [cipher] raises [ValueError] exactly when the shift is outside
    [1, 25] (in particular for 0 and 26), whatever the text and the
    direction, and then returns no text at all. *)
Theorem cipher_invalid_shift (isalpha isupper : Z -> bool)
    (text : list Z) (shift : Z) (d : bool) :
  ((exists e, cipher isalpha isupper text shift d = inl e) <-> (shift < 1 \/ 25 < shift))
  /\ ((shift < 1 \/ 25 < shift) ->
      cipher isalpha isupper text shift d
      = inl (ValueError "Shift must be between 1 and 25"))
  /\ cipher isalpha isupper text 0 d = inl (ValueError "Shift must be between 1 and 25")
  /\ cipher isalpha isupper text 26 d = inl (ValueError "Shift must be between 1 and 25").
Proof.
  assert (Hbad : forall sh, sh < 1 \/ 25 < sh ->
            cipher isalpha isupper text sh d
            = inl (ValueError "Shift must be between 1 and 25")).
  { intros sh Hsh; unfold cipher, min_shift, max_shift.
    replace ((1 <=? sh) && (sh <=? 25)) with false; [reflexivity|].
    symmetry; apply andb_false_iff.
    destruct Hsh; [left | right]; apply Z.leb_gt; lia. }
  split; [|split; [apply Hbad | split; apply Hbad; lia]].
  split.
  - intros [e He].
    destruct (Z_lt_le_dec shift 1); [now left|].
    destruct (Z_lt_le_dec 25 shift); [now right|].
    rewrite cipher_valid in He by lia; discriminate.
  - intros H; eexists; now apply Hbad.
Qed.

(** C9: for a valid shift and either direction, the output of [cipher]
    has exactly as many characters as the input. *)
Theorem cipher_preserves_length (isalpha isupper : Z -> bool)
    (text : list Z) (shift : Z) (d : bool) :
  1 <= shift <= 25 ->
  exists out, cipher isalpha isupper text shift d = inr out
    /\ List.length out = List.length text.
Proof.
  intros Hs; rewrite cipher_valid by exact Hs; eexists; split; [reflexivity|].
  apply length_map.
Qed.

(** C10: for a valid shift and either direction, every alphabetic
    character of the input (ASCII or not) becomes a character of
    'A'..'Z' when [isupper] holds of it and of 'a'..'z' otherwise; in
    particular a non-ASCII letter is always changed. *)
Theorem cipher_maps_letters_to_ascii (isalpha isupper : Z -> bool)
    (text : list Z) (shift : Z) (d : bool) :
  1 <= shift <= 25 ->
  exists out, cipher isalpha isupper text shift d = inr out
    /\ forall i c, nth_error text i = Some c -> isalpha c = true ->
       exists c', nth_error out i = Some c'
         /\ (if isupper c then 65 <= c' <= 90 else 97 <= c' <= 122)
         /\ (127 < c -> c' <> c).
Proof.
  intros Hs; rewrite cipher_valid by exact Hs; eexists; split; [reflexivity|].
  intros i c Hi Ha; rewrite (nth_error_map_inv _ _ _ _ Hi).
  eexists; split; [reflexivity|].
  pose proof (cipher_char_letter isalpha isupper (if d then - shift else shift) c Ha)
    as Hr; simpl in Hr.
  split; [exact Hr|].
  intros Hc; destruct (isupper c); lia.
Qed.

(** C6: for a valid shift and either direction, an uppercase letter of
    the input gives an uppercase letter at the same position of the
    output and a lowercase letter a lowercase letter, for any character
    classes that, like Python's, call 'A'..'Z' uppercase letters, 'a'..'z'
    lowercase letters, and no lowercase character uppercase. *)
Theorem cipher_preserves_case (isalpha isupper islower : Z -> bool)
    (text : list Z) (shift : Z) (d : bool) :
  (forall x, 65 <= x <= 90 -> isalpha x = true /\ isupper x = true) ->
  (forall x, 97 <= x <= 122 -> isalpha x = true /\ islower x = true) ->
  (forall x, islower x = true -> isupper x = false) ->
  1 <= shift <= 25 ->
  exists out, cipher isalpha isupper text shift d = inr out
    /\ forall i c, nth_error text i = Some c -> isalpha c = true ->
       exists c', nth_error out i = Some c' /\ isalpha c' = true
         /\ (isupper c = true -> isupper c' = true)
         /\ (islower c = true -> islower c' = true).
Proof.
  intros Hup Hlo Hlu Hs; rewrite cipher_valid by exact Hs.
  eexists; split; [reflexivity|].
  intros i c Hi Ha; rewrite (nth_error_map_inv _ _ _ _ Hi).
  pose proof (cipher_char_letter isalpha isupper (if d then - shift else shift) c Ha)
    as Hr; simpl in Hr.
  eexists; split; [reflexivity|].
  destruct (isupper c) eqn:Hu.
  - destruct (Hup _ Hr) as [Ha' Hu']; split; [exact Ha'|].
    split; [auto|]. intros Hl; rewrite (Hlu c Hl) in Hu; discriminate.
  - destruct (Hlo _ Hr) as [Ha' Hl']; split; [exact Ha'|].
    split; [discriminate | auto].
Qed.

(** C5: the test vectors of the spec. *)
Theorem encrypt_test_vectors :
  py_encrypt (str "Hello World!") 3 = inr (str "Khoor Zruog!")
  /\ py_encrypt (str "Attack at dawn!") 5 = inr (str "Fyyfhp fy ifbs!").
Proof. vm_compute. split; reflexivity. Qed.

(** ** Brute force *)

Lemma dict_set_new {V} (d : list (Z * V)) (k : Z) (v : V) :
  ~ In k (map fst d) -> dict_set d k v = d ++ [(k, v)].
Proof.
  induction d as [|[k' v'] d IH]; simpl; intros Hk; [reflexivity|].
  destruct (Z.eqb_spec k' k); [exfalso; auto|].
  rewrite IH; auto.
Qed.

Lemma brute_force_loop_fresh (isalpha isupper : Z -> bool) (c : list Z) :
  forall shifts results,
  Forall (fun s => 1 <= s <= 25) shifts ->
  NoDup (map fst results ++ shifts) ->
  brute_force_loop isalpha isupper c results shifts
  = inr (results ++ map (fun s => (s, map (cipher_char isalpha isupper (- s)) c)) shifts).
Proof.
  induction shifts as [|s shifts IH]; intros results Hv Hnd; simpl.
  - now rewrite app_nil_r.
  - inversion Hv as [|? ? Hs Hv']; subst.
    unfold decrypt; rewrite cipher_valid by exact Hs; simpl.
    pose proof Hnd as Hnd0; apply NoDup_remove in Hnd as [_ Hnin].
    rewrite dict_set_new by (intros Hin; apply Hnin, in_or_app; now left).
    rewrite IH; [| exact Hv' | now rewrite map_app, <- app_assoc].
    now rewrite <- app_assoc.
Qed.

Lemma range_1_26 :
  range 1 26 = [1; 2; 3; 4; 5; 6; 7; 8; 9; 10; 11; 12; 13; 14; 15; 16; 17;
                18; 19; 20; 21; 22; 23; 24; 25].
Proof. reflexivity. Qed.

(** [brute_force_decrypt] never fails and returns the 25 decryptions,
    keyed 1..25 in ascending insertion order. *)
Lemma brute_force_decrypt_entries (isalpha isupper : Z -> bool) (c : list Z) :
  brute_force_decrypt isalpha isupper c
  = inr (map (fun s => (s, map (cipher_char isalpha isupper (- s)) c)) (range 1 26)).
Proof.
  unfold brute_force_decrypt.
  change (range min_shift (max_shift + 1)) with (range 1 26).
  rewrite brute_force_loop_fresh; [reflexivity| |].
  - rewrite range_1_26; repeat constructor; lia.
  - simpl; rewrite range_1_26; repeat constructor; simpl; intuition lia.
Qed.

(** C4 (25 entries keyed 1..25, the entry at the shift used for
    encryption being the plaintext) fails on the plaintext "é" (U+00E9)
    encrypted with shift 1: the 25 entries are there, in order, but the
    entry at key 1 is "g" (same defect as C1). *)
Theorem brute_force_misses_non_ascii_plaintext :
  py_encrypt [233] 1 = inr (str "h")
  /\ bind (py_brute_force_decrypt (str "h"))
       (fun d => ret (List.length d, map fst d, dict_get d 1))
     = inr (25%nat, range 1 26, Some (str "g")).
Proof. vm_compute. split; reflexivity. Qed.

(** ** File helpers *)

Lemma splitext_scan_app (p : list Z) (dotIndex : Z) :
  forall fuel filenameIndex,
  fst (splitext_scan p dotIndex filenameIndex fuel)
  ++ snd (splitext_scan p dotIndex filenameIndex fuel) = p.
Proof.
  induction fuel as [|fuel IH]; intros fi; simpl.
  - apply app_nil_r.
  - destruct (_ =? ord_dot); [apply IH | apply firstn_skipn].
Qed.

(** [splitext] splits its argument: [name + ext == p]. *)
Lemma splitext_app (p : list Z) : fst (splitext p) ++ snd (splitext p) = p.
Proof.
  unfold splitext; destruct (_ <? _); [apply splitext_scan_app | apply app_nil_r].
Qed.

Lemma list_Z_eqb_refl (p : list Z) : list_Z_eqb p p = true.
Proof. unfold list_Z_eqb; destruct (list_eq_dec Z.eq_dec p p); congruence. Qed.

Lemma list_Z_eqb_neq (p q : list Z) : q <> p -> list_Z_eqb q p = false.
Proof. unfold list_Z_eqb; destruct (list_eq_dec Z.eq_dec q p); congruence. Qed.

(** What [write_file] may change: only the file the path resolves to,
    which holds the whole content when the write succeeds. *)
Lemma write_file_cases (s s' : fs) (p content : list Z) (r : M unit) :
  write_file s p content = (s', r) ->
  fs_resolve s' = fs_resolve s
  /\ (forall f, f <> fs_resolve s p -> fs_file s' f = fs_file s f)
  /\ (forall u, r = inr u -> contents s' p = Some content).
Proof.
  unfold write_file; cbv zeta.
  repeat match goal with |- context [match ?x with _ => _ end] => destruct x end;
    intros H; injection H as <- <-;
    (split; [reflexivity|]); split;
    try (intros f Hf; simpl; rewrite (list_Z_eqb_neq _ _ Hf); reflexivity);
    try (intros f Hf; reflexivity);
    intros u Hu; try discriminate Hu;
    unfold contents; simpl; now rewrite list_Z_eqb_refl.
Qed.

Lemma read_file_content (s : fs) (p content : list Z) :
  read_file s p = inr content -> contents s p = Some content.
Proof.
  unfold read_file, contents; cbv zeta; destruct (fs_file s (fs_resolve s p)); [|discriminate].
  destruct (negb _); [discriminate|]; destruct (fs_broken _ _); [discriminate|].
  now intros H; injection H as ->.
Qed.

Lemma transform_file_true (transform : list Z -> Z -> M (list Z)) (suffix : list Z)
    (s s' : fs) (input_file : list Z) (shift : Z) (output_file : option (list Z))
    (msgs : list report) :
  transform_file transform suffix s input_file shift output_file = (true, s', msgs) ->
  msgs = []
  /\ exists content out, read_file s input_file = inr content
     /\ transform content shift = inr out
     /\ write_file s (resolve_output suffix input_file output_file) out = (s', inr tt).
Proof.
  unfold transform_file.
  destruct (read_file s input_file) as [e|content] eqn:Hr; [congruence|].
  destruct (transform content shift) as [e|out] eqn:Ht; [congruence|].
  destruct (write_file _ _ out) as [s'' [e|[]]] eqn:Hw; [congruence|].
  intros H; injection H as <- <-; split; [reflexivity|]; eauto 6.
Qed.

(** Whatever its outcome, [transform_file] changes only the file its
    output path resolves to, and no path resolves differently. *)
Lemma transform_file_frame (transform : list Z -> Z -> M (list Z)) (suffix : list Z)
    (s s' : fs) (input_file : list Z) (shift : Z) (output_file : option (list Z))
    (ok : bool) (msgs : list report) :
  transform_file transform suffix s input_file shift output_file = (ok, s', msgs) ->
  fs_resolve s' = fs_resolve s
  /\ forall f, f <> fs_resolve s (resolve_output suffix input_file output_file) ->
     fs_file s' f = fs_file s f.
Proof.
  unfold transform_file.
  destruct (read_file s input_file) as [e|content];
    [intros H; injection H as _ <- _; split; reflexivity|].
  destruct (transform content shift) as [e|out];
    [intros H; injection H as _ <- _; split; reflexivity|].
  destruct (write_file _ _ out) as [s'' r] eqn:Hw.
  apply write_file_cases in Hw as (Hres & Hframe & _).
  destruct r; intros H; injection H as _ <- _; split; assumption.
Qed.

(** The failures of [transform_file]: an exception at any step is
    caught, reported once and turned into [False]; it returns [True]
    exactly when reading, the cipher and writing all succeed. *)
Lemma transform_file_reports (transform : list Z -> Z -> M (list Z)) (suffix : list Z)
    (s : fs) (input_file : list Z) (shift : Z) (output_file : option (list Z)) :
  let result := transform_file transform suffix s input_file shift output_file in
  let target := resolve_output suffix input_file output_file in
  (forall e, read_file s input_file = inl e -> result = (false, s, [report_of input_file e]))
  /\ (forall content e, read_file s input_file = inr content ->
       transform content shift = inl e -> result = (false, s, [report_of input_file e]))
  /\ (forall content out s' e, read_file s input_file = inr content ->
       transform content shift = inr out -> write_file s target out = (s', inl e) ->
       result = (false, s', [report_of input_file e]))
  /\ ((exists s', result = (true, s', [])) \/ (exists s' r, result = (false, s', [r])))
  /\ (fst (fst result) = true <->
      exists content out s', read_file s input_file = inr content
        /\ transform content shift = inr out /\ write_file s target out = (s', inr tt)).
Proof.
  cbv zeta; unfold transform_file.
  split; [intros e He; now rewrite He|].
  split; [intros content e Hr Ht; now rewrite Hr, Ht|].
  split; [intros content out s' e Hr Ht Hw; now rewrite Hr, Ht, Hw|].
  destruct (read_file s input_file) as [e|content] eqn:Hr.
  { split; [right; eauto|]. split; [discriminate|].
    intros (? & ? & ? & H & _); discriminate. }
  destruct (transform content shift) as [e|out] eqn:Ht.
  { split; [right; eauto|]. split; [discriminate|].
    intros (? & ? & ? & H & H' & _); injection H as <-; congruence. }
  destruct (write_file s _ out) as [s' [e|[]]] eqn:Hw.
  - split; [right; eauto|]. split; [discriminate|].
    intros (? & ? & ? & H & H' & H''); injection H as <-.
    rewrite Ht in H'; injection H' as <-; congruence.
  - split; [left; eauto|]. split; [intros _; eauto 7 | reflexivity].
Qed.

(** C7: with no output path, [encrypt_file] writes to
    [<stem>_encrypted<ext>] and [decrypt_file] to [<stem>_decrypted<ext>],
    where [stem, ext = os.path.splitext(input_file)] (so that
    [stem + ext == input_file]): when the operation succeeds, that path
    holds the transformed content of the input file. *)
Theorem file_default_output_path (isalpha isupper : Z -> bool)
    (s : fs) (input_file : list Z) (shift : Z) :
  match splitext input_file with
  | (stem, ext) =>
      stem ++ ext = input_file
      /\ (forall s' msgs,
           encrypt_file isalpha isupper s input_file shift None = (true, s', msgs) ->
           exists content out, read_file s input_file = inr content
             /\ encrypt isalpha isupper content shift = inr out
             /\ write_file s (stem ++ str "_encrypted" ++ ext) out = (s', inr tt)
             /\ contents s' (stem ++ str "_encrypted" ++ ext) = Some out)
      /\ (forall s' msgs,
           decrypt_file isalpha isupper s input_file shift None = (true, s', msgs) ->
           exists content out, read_file s input_file = inr content
             /\ decrypt isalpha isupper content shift = inr out
             /\ write_file s (stem ++ str "_decrypted" ++ ext) out = (s', inr tt)
             /\ contents s' (stem ++ str "_decrypted" ++ ext) = Some out)
  end.
Proof.
  pose proof (splitext_app input_file) as Happ.
  destruct (splitext input_file) as [stem ext] eqn:Hsp; simpl in Happ.
  split; [exact Happ|]; split; intros s' msgs H;
    apply transform_file_true in H as [_ (content & out & Hr & Ht & Hw)];
    unfold resolve_output, default_output in Hw; rewrite Hsp in Hw;
    exists content, out; repeat split; auto;
    apply write_file_cases in Hw as (_ & _ & Hc); exact (Hc tt eq_refl).
Qed.

(** C8: [encrypt_file] and [decrypt_file] never let an exception escape:
    a missing input file, a refused access or any other I/O failure (on
    reading or on writing) is reported once and the operation returns
    [False]. A failure on reading leaves the file system as it was; a
    failure on writing leaves it as [open] and the failed write left it
    (the output file truncated). It returns [True] exactly when reading,
    the cipher and writing all succeed. *)
Theorem file_ops_report_failures (isalpha isupper : Z -> bool)
    (s : fs) (input_file : list Z) (shift : Z) (output_file : option (list Z)) :
  let enc := encrypt_file isalpha isupper s input_file shift output_file in
  let dec := decrypt_file isalpha isupper s input_file shift output_file in
  (forall e, read_file s input_file = inl e ->
     enc = (false, s, [report_of input_file e]) /\ dec = (false, s, [report_of input_file e]))
  /\ (contents s input_file = None ->
      enc = (false, s, [ReportNotFound input_file])
      /\ dec = (false, s, [ReportNotFound input_file]))
  /\ (forall content out s' e, read_file s input_file = inr content ->
       encrypt isalpha isupper content shift = inr out ->
       write_file s (resolve_output suffix_encrypted input_file output_file) out = (s', inl e) ->
       enc = (false, s', [report_of input_file e]))
  /\ (forall content out s' e, read_file s input_file = inr content ->
       decrypt isalpha isupper content shift = inr out ->
       write_file s (resolve_output suffix_decrypted input_file output_file) out = (s', inl e) ->
       dec = (false, s', [report_of input_file e]))
  /\ ((exists s', enc = (true, s', [])) \/ (exists s' r, enc = (false, s', [r])))
  /\ ((exists s', dec = (true, s', [])) \/ (exists s' r, dec = (false, s', [r])))
  /\ (fst (fst enc) = true <->
      exists content out s', read_file s input_file = inr content
        /\ encrypt isalpha isupper content shift = inr out
        /\ write_file s (resolve_output suffix_encrypted input_file output_file) out
           = (s', inr tt))
  /\ (fst (fst dec) = true <->
      exists content out s', read_file s input_file = inr content
        /\ decrypt isalpha isupper content shift = inr out
        /\ write_file s (resolve_output suffix_decrypted input_file output_file) out
           = (s', inr tt)).
Proof.
  cbv zeta.
  destruct (transform_file_reports (encrypt isalpha isupper) suffix_encrypted
              s input_file shift output_file) as (E1 & _ & E3 & E4 & E5).
  destruct (transform_file_reports (decrypt isalpha isupper) suffix_decrypted
              s input_file shift output_file) as (D1 & _ & D3 & D4 & D5).
  cbv zeta in *; unfold encrypt_file, decrypt_file.
  split; [intros e He; split; [apply E1 | apply D1]; exact He|].
  split.
  { intros Hn; assert (Hr : read_file s input_file = inl FileNotFoundError)
      by (unfold read_file, contents in *; cbv zeta; now rewrite Hn).
    split; [apply (E1 _ Hr) | apply (D1 _ Hr)]. }
  split; [exact E3|]. split; [exact D3|].
  split; [exact E4|]. split; [exact D4|].
  split; [exact E5 | exact D5].
Qed.

(** ** Witnesses on concrete inputs *)

Lemma cipher_keeps_non_alpha_witness :
  1 <= 3 <= 25
  /\ exists out, py_cipher sample_text 3 true = inr out
    /\ forall i c, nth_error sample_text i = Some c -> py_isalpha c = false ->
       nth_error out i = Some c.
Proof.
  split; [lia|].
  exact (cipher_keeps_non_alpha py_isalpha py_isupper sample_text 3 true
           ltac:(lia)).
Defined.

Lemma cipher_preserves_length_witness :
  1 <= 25 <= 25
  /\ exists out, py_cipher sample_text 25 false = inr out
    /\ List.length out = List.length sample_text.
Proof.
  split; [lia|].
  exact (cipher_preserves_length py_isalpha py_isupper sample_text 25 false
           ltac:(lia)).
Defined.

Lemma cipher_maps_letters_to_ascii_witness :
  1 <= 1 <= 25
  /\ exists out, py_cipher sample_text 1 false = inr out
    /\ forall i c, nth_error sample_text i = Some c -> py_isalpha c = true ->
       exists c', nth_error out i = Some c'
         /\ (if py_isupper c then 65 <= c' <= 90 else 97 <= c' <= 122)
         /\ (127 < c -> c' <> c).
Proof.
  split; [lia|].
  exact (cipher_maps_letters_to_ascii py_isalpha py_isupper sample_text 1 false
           ltac:(lia)).
Defined.

(** The character tables as linear arithmetic. *)
Ltac class_to_prop :=
  repeat rewrite ?orb_true_iff, ?andb_true_iff, ?Z.leb_le, ?Z.eqb_eq in *.

Ltac decide_class :=
  lazymatch goal with
  | |- _ = false => apply not_true_iff_false; intros ?
  | _ => idtac
  end; class_to_prop; lia.

Lemma cipher_preserves_case_witness :
  (forall x, 65 <= x <= 90 -> py_isalpha x = true /\ py_isupper x = true)
  /\ (forall x, 97 <= x <= 122 -> py_isalpha x = true /\ py_islower x = true)
  /\ (forall x, py_islower x = true -> py_isupper x = false)
  /\ 1 <= 13 <= 25
  /\ exists out, py_cipher sample_text 13 false = inr out
    /\ forall i c, nth_error sample_text i = Some c -> py_isalpha c = true ->
       exists c', nth_error out i = Some c' /\ py_isalpha c' = true
         /\ (py_isupper c = true -> py_isupper c' = true)
         /\ (py_islower c = true -> py_islower c' = true).
Proof.
  assert (Hup : forall x, 65 <= x <= 90 -> py_isalpha x = true /\ py_isupper x = true).
  { intros x Hx; unfold py_isalpha, py_isupper; split; decide_class. }
  assert (Hlo : forall x, 97 <= x <= 122 -> py_isalpha x = true /\ py_islower x = true).
  { intros x Hx; unfold py_isalpha, py_islower; split; decide_class. }
  assert (Hlu : forall x, py_islower x = true -> py_isupper x = false).
  { intros x H; unfold py_islower, py_isupper in *; decide_class. }
  split; [exact Hup|]. split; [exact Hlo|]. split; [exact Hlu|].
  split; [lia|].
  exact (cipher_preserves_case py_isalpha py_isupper py_islower sample_text 13 false
           Hup Hlo Hlu ltac:(lia)).
Defined.

Example default_output_examples :
  resolve_output suffix_encrypted (str "dir/notes.txt") None = str "dir/notes_encrypted.txt"
  /\ resolve_output suffix_decrypted (str "a.tar.gz") None = str "a.tar_decrypted.gz"
  /\ resolve_output suffix_encrypted (str ".bashrc") None = str ".bashrc_encrypted".
Proof. vm_compute. repeat split. Qed.

(** ** More properties of the cipher *)

Section MoreCipher.

Variable isalpha isupper : Z -> bool.

Lemma cipher_char_compose (a b c : Z) :
  ascii_classes isalpha isupper ->
  cipher_char isalpha isupper a (cipher_char isalpha isupper b c)
  = cipher_char isalpha isupper (a + b) c.
Proof.
  intros [Hup Hlo].
  destruct (isalpha c) eqn:Ha.
  2:{ unfold cipher_char at 2 3; rewrite Ha; unfold cipher_char; now rewrite Ha. }
  pose proof (cipher_char_letter isalpha isupper b c Ha) as Hr; simpl in Hr.
  assert (Hc' : isalpha (cipher_char isalpha isupper b c) = true
                /\ isupper (cipher_char isalpha isupper b c) = isupper c).
  { destruct (isupper c); [apply Hup | apply Hlo]; exact Hr. }
  unfold cipher_char at 1; rewrite (proj1 Hc'), (proj2 Hc').
  unfold cipher_char; rewrite Ha; unfold alphabet_size.
  destruct (isupper c); unfold ord_A, ord_a; f_equal;
    rewrite Z.add_simpl_r, Zplus_mod_idemp_l; f_equal; lia.
Qed.

Lemma cipher_char_mod (a c : Z) :
  cipher_char isalpha isupper (a mod 26) c = cipher_char isalpha isupper a c.
Proof.
  unfold cipher_char, alphabet_size; destruct (isalpha c); [|reflexivity].
  f_equal; now rewrite Zplus_mod_idemp_r.
Qed.

(** Decrypting with a valid shift [s] is encrypting with [26 - s], for
    every text (the two rotations agree on every character). *)
Theorem decrypt_is_encrypt_complement (text : list Z) (shift : Z) :
  1 <= shift <= 25 ->
  decrypt isalpha isupper text shift = encrypt isalpha isupper text (26 - shift).
Proof.
  intros Hs; unfold decrypt, encrypt.
  rewrite !cipher_valid by lia; f_equal; apply map_ext; intros c.
  rewrite <- (cipher_char_mod (26 - shift)), <- (cipher_char_mod (- shift)).
  f_equal; replace (26 - shift) with (- shift + 1 * 26) by lia.
  symmetry; apply Z_mod_plus_full.
Qed.

(** Decrypting an encryption, with the same valid shift, gives the text
    with every alphabetic character [c] replaced by the letter at offset
    [(ord(c) - base) % 26] of its case's ASCII alphabet: the loop body of
    [cipher] at shift 0.  The result does not depend on the shift; it is
    the text itself exactly where the text's letters are ASCII. *)
Theorem cipher_roundtrip_normalizes (text : list Z) (shift : Z) :
  ascii_classes isalpha isupper ->
  1 <= shift <= 25 ->
  bind (encrypt isalpha isupper text shift) (fun e => decrypt isalpha isupper e shift)
  = inr (map (cipher_char isalpha isupper 0) text).
Proof.
  intros Hc Hs; unfold encrypt, decrypt.
  rewrite cipher_valid by exact Hs; simpl; rewrite cipher_valid by exact Hs.
  f_equal; rewrite map_map; apply map_ext; intros c.
  rewrite cipher_char_compose by exact Hc; f_equal; lia.
Qed.

(** Encrypting twice with valid shifts [a] and [b] is encrypting once with
    [(a + b) % 26], when that is a valid shift. *)
Theorem encrypt_compose (text : list Z) (a b : Z) :
  ascii_classes isalpha isupper ->
  1 <= a <= 25 -> 1 <= b <= 25 -> (a + b) mod 26 <> 0 ->
  bind (encrypt isalpha isupper text a) (fun e => encrypt isalpha isupper e b)
  = encrypt isalpha isupper text ((a + b) mod 26).
Proof.
  intros Hc Ha Hb Hab; unfold encrypt.
  pose proof (Z.mod_pos_bound (a + b) 26 ltac:(lia)).
  rewrite cipher_valid by exact Ha; simpl; rewrite !cipher_valid by lia.
  f_equal; rewrite map_map; apply map_ext; intros c.
  rewrite cipher_char_compose, cipher_char_mod by exact Hc; f_equal; lia.
Qed.

End MoreCipher.

(** ** More properties of the brute force *)

Lemma dict_get_range {V} (f : Z -> V) (s : Z) :
  1 <= s <= 25 -> dict_get (map (fun k => (k, f k)) (range 1 26)) s = Some (f s).
Proof.
  intros Hs; rewrite range_1_26.
  assert (s = 1 \/ s = 2 \/ s = 3 \/ s = 4 \/ s = 5 \/ s = 6 \/ s = 7 \/ s = 8
          \/ s = 9 \/ s = 10 \/ s = 11 \/ s = 12 \/ s = 13 \/ s = 14 \/ s = 15
          \/ s = 16 \/ s = 17 \/ s = 18 \/ s = 19 \/ s = 20 \/ s = 21 \/ s = 22
          \/ s = 23 \/ s = 24 \/ s = 25) by lia.
  repeat (destruct H as [-> | H]; [reflexivity|]); subst; reflexivity.
Qed.

Lemma rotation_fixes_letter (k x : Z) :
  0 <= x < 26 -> -25 <= k <= 25 -> (x + k) mod 26 = x -> k = 0.
Proof.
  intros Hx Hk Heq.
  pose proof (Z.div_mod (x + k) 26 ltac:(lia)) as Hd.
  pose proof (Z.mod_pos_bound (x + k) 26 ltac:(lia)).
  rewrite Heq in Hd.
  assert (Hq : -1 <= (x + k) / 26 <= 1).
  { split; [apply Z.div_le_lower_bound | apply Z.div_le_upper_bound]; lia. }
  lia.
Qed.

(** When a plaintext has at least one letter and all its letters are
    ASCII, the brute force of its encryption with a valid shift [s0] has
    the plaintext at key [s0] and at no other key. *)
Theorem brute_force_finds_unique_shift (isalpha isupper : Z -> bool)
    (plain : list Z) (s0 : Z) :
  ascii_classes isalpha isupper ->
  Forall (fun c => isalpha c = true -> 65 <= c <= 90 \/ 97 <= c <= 122) plain ->
  Exists (fun c => isalpha c = true) plain ->
  1 <= s0 <= 25 ->
  exists encrypted results,
    encrypt isalpha isupper plain s0 = inr encrypted
    /\ brute_force_decrypt isalpha isupper encrypted = inr results
    /\ forall s, 1 <= s <= 25 -> (dict_get results s = Some plain <-> s = s0).
Proof.
  intros Hc Hascii Hex Hs0.
  unfold encrypt; rewrite cipher_valid by exact Hs0.
  eexists; eexists; split; [reflexivity|].
  rewrite brute_force_decrypt_entries; split; [reflexivity|].
  intros s Hs; rewrite dict_get_range by exact Hs.
  rewrite map_map.
  assert (Hmap : map (fun x => cipher_char isalpha isupper (- s)
                                 (cipher_char isalpha isupper s0 x)) plain
                 = map (cipher_char isalpha isupper (s0 - s)) plain).
  { apply map_ext; intros c; rewrite cipher_char_compose by exact Hc; f_equal; lia. }
  rewrite Hmap; split.
  - intros Heq; injection Heq as Heq.
    apply Exists_exists in Hex as (c & Hin & Ha).
    rewrite Forall_forall in Hascii.
    pose proof (Hascii c Hin Ha) as Hr.
    assert (Hfix : cipher_char isalpha isupper (s0 - s) c = c).
    { clear Hmap; induction plain as [|x plain IH]; [destruct Hin|].
      simpl in Heq; injection Heq as H1 H2.
      destruct Hin as [<- | Hin]; [exact H1|].
      apply IH; auto. intros y Hy; apply Hascii; now right. }
    unfold cipher_char, alphabet_size in Hfix; rewrite Ha in Hfix.
    destruct Hc as [Hup Hlo].
    destruct Hr as [Hr | Hr];
      [ rewrite (proj2 (Hup c Hr)) in Hfix | rewrite (proj2 (Hlo c Hr)) in Hfix ];
      unfold ord_A, ord_a in Hfix.
    + assert (H0 : s0 - s = 0)
        by (apply (rotation_fixes_letter (s0 - s) (c - 65)); lia). lia.
    + assert (H0 : s0 - s = 0)
        by (apply (rotation_fixes_letter (s0 - s) (c - 97)); lia). lia.
  - intros ->; f_equal.
    replace (s0 - s0) with 0 by lia.
    rewrite Forall_forall in Hascii.
    rewrite <- (map_id plain) at 2; apply map_ext_in; intros c Hin.
    unfold cipher_char, alphabet_size; destruct (isalpha c) eqn:Ha; [|reflexivity].
    destruct Hc as [Hup Hlo].
    destruct (Hascii c Hin Ha) as [Hr | Hr];
      [ rewrite (proj2 (Hup c Hr)) | rewrite (proj2 (Hlo c Hr)) ];
      unfold ord_A, ord_a; rewrite Z.add_0_r, Z.mod_small by lia; lia.
Qed.

(** A text without alphabetic characters is its own decryption under
    every shift: all 25 brute-force entries equal it. *)
Theorem brute_force_no_letters (isalpha isupper : Z -> bool) (c : list Z) :
  Forall (fun x => isalpha x = false) c ->
  brute_force_decrypt isalpha isupper c = inr (map (fun s => (s, c)) (range 1 26)).
Proof.
  intros Hc; rewrite brute_force_decrypt_entries; f_equal.
  apply map_ext; intros s; f_equal.
  rewrite <- (map_id c) at 2; apply map_ext_in; intros x Hx.
  rewrite Forall_forall in Hc; unfold cipher_char; now rewrite (Hc x Hx).
Qed.

(** ** More properties of [splitext] and the file helpers *)

Lemma rfind_from_spec (x : Z) (p : list Z) :
  forall i found,
  (rfind_from x i p found = found /\ ~ In x p)
  \/ (exists n, rfind_from x i p found = i + Z.of_nat n
        /\ nth_error p n = Some x
        /\ forall k y, (n < k)%nat -> nth_error p k = Some y -> y <> x).
Proof.
  induction p as [|c rest IH]; intros i found; simpl.
  - left; auto.
  - destruct (IH (i + 1) (if c =? x then i else found))
      as [[Hr Hnin] | (n & Hr & Hn & Hafter)].
    + destruct (Z.eqb_spec c x) as [<- | Hcx].
      * right; exists 0%nat; rewrite Hr; split; [lia|]; split; [reflexivity|].
        intros [|k] y Hk Hy; [lia|]; simpl in Hy.
        apply nth_error_In in Hy; intros ->; contradiction.
      * left; split; [exact Hr|]; intros [-> | Hin]; auto.
    + right; exists (S n); split; [rewrite Hr; lia|]; split; [exact Hn|].
      intros [|k] y Hk Hy; [lia|]; apply (Hafter k); [lia | exact Hy].
Qed.

Lemma rfind_spec (x : Z) (p : list Z) :
  (rfind x p = -1 /\ ~ In x p)
  \/ (exists n, rfind x p = Z.of_nat n
        /\ nth_error p n = Some x
        /\ forall k y, (n < k)%nat -> nth_error p k = Some y -> y <> x).
Proof.
  unfold rfind; destruct (rfind_from_spec x p 0 (-1)) as [H | (n & H1 & H2 & H3)];
    [left; exact H | right; exists n; split; [lia | auto]].
Qed.

Lemma splitext_scan_cases (p : list Z) (dotIndex : Z) :
  forall fuel filenameIndex,
  splitext_scan p dotIndex filenameIndex fuel = (p, [])
  \/ splitext_scan p dotIndex filenameIndex fuel
     = (firstn (Z.to_nat dotIndex) p, skipn (Z.to_nat dotIndex) p).
Proof.
  induction fuel as [|fuel IH]; intros fi; simpl; [now left|].
  destruct (_ =? ord_dot); [apply IH | now right].
Qed.

Lemma skipn_nth_error (p : list Z) (n : nat) (x : Z) :
  nth_error p n = Some x -> skipn n p = x :: skipn (S n) p.
Proof.
  revert p; induction n as [|n IH]; intros [|c p] H; simpl in *; try discriminate.
  - now injection H as ->.
  - now apply IH.
Qed.

Lemma in_skipn_index (p : list Z) (n : nat) (y : Z) :
  In y (skipn n p) -> exists k, (n <= k)%nat /\ nth_error p k = Some y.
Proof.
  intros Hin; apply In_nth_error in Hin as (m & Hm).
  rewrite nth_error_skipn in Hm; exists (n + m)%nat; split; [lia | exact Hm].
Qed.

(** The extension [splitext] returns is empty, or a dot followed by
    characters that are neither dots nor slashes: it is the last
    dot-suffix of the last path component. *)
Theorem splitext_extension_shape (p : list Z) :
  snd (splitext p) = []
  \/ exists rest, snd (splitext p) = ord_dot :: rest
       /\ ~ In ord_dot rest /\ ~ In ord_slash rest.
Proof.
  unfold splitext.
  assert (Hext : forall n, nth_error p n = Some ord_dot ->
            (forall k y, (n < k)%nat -> nth_error p k = Some y -> y <> ord_dot) ->
            (forall k y, (n < k)%nat -> nth_error p k = Some y -> y <> ord_slash) ->
            forall fuel fi,
            snd (splitext_scan p (Z.of_nat n) fi fuel) = []
            \/ exists rest, snd (splitext_scan p (Z.of_nat n) fi fuel) = ord_dot :: rest
                 /\ ~ In ord_dot rest /\ ~ In ord_slash rest).
  { intros n Hdn Hdot Hslash fuel fi.
    destruct (splitext_scan_cases p (Z.of_nat n) fuel fi) as [-> | ->]; [now left|].
    right; simpl; rewrite Nat2Z.id, (skipn_nth_error p n ord_dot Hdn).
    eexists; split; [reflexivity|].
    split; intros Hin; apply in_skipn_index in Hin as (k & Hk & Hkn).
    - exact (Hdot k ord_dot ltac:(lia) Hkn eq_refl).
    - exact (Hslash k ord_slash ltac:(lia) Hkn eq_refl). }
  destruct (rfind_spec ord_dot p) as [[Hd _] | (n & Hd & Hdn & Hdafter)].
  { rewrite Hd; destruct (_ <? -1) eqn:Hlt; [|now left].
    apply Z.ltb_lt in Hlt.
    destruct (rfind_spec ord_slash p) as [[Hs _] | (m & Hs & _)]; lia. }
  rewrite Hd.
  destruct (rfind_spec ord_slash p) as [[Hs Hsnin] | (m & Hs & Hsm & Hsafter)];
    rewrite Hs; destruct (_ <? Z.of_nat n) eqn:Hlt; try (now left);
    apply Z.ltb_lt in Hlt; apply Hext; auto.
  - intros k y _ Hk ->; exact (Hsnin (nth_error_In _ _ Hk)).
  - intros k y Hk; apply Hsafter; lia.
Qed.

Lemma cipher_ok_shift (isalpha isupper : Z -> bool) (text out : list Z) (shift : Z) (d : bool) :
  cipher isalpha isupper text shift d = inr out -> 1 <= shift <= 25.
Proof.
  unfold cipher, min_shift, max_shift.
  destruct ((1 <=? shift) && (shift <=? 25)) eqn:H; [|discriminate].
  intros _; apply andb_true_iff in H as [H1 H2]; apply Z.leb_le in H1, H2; lia.
Qed.

Lemma transform_file_writes_only_target (transform : list Z -> Z -> M (list Z))
    (suffix : list Z) (s s' : fs) (input_file : list Z) (shift : Z)
    (output_file : option (list Z)) (msgs : list report) :
  transform_file transform suffix s input_file shift output_file = (true, s', msgs) ->
  exists content out, read_file s input_file = inr content
    /\ transform content shift = inr out
    /\ contents s' (resolve_output suffix input_file output_file) = Some out.
Proof.
  intros H; apply transform_file_true in H as [_ (content & out & Hr & Ht & Hw)].
  exists content, out; split; [exact Hr|]; split; [exact Ht|].
  apply write_file_cases in Hw as (_ & _ & Hc); exact (Hc tt eq_refl).
Qed.

(** Whatever their outcome, [encrypt_file] and [decrypt_file] touch at
    most one file, the one their output path (given, or derived from the
    input path) resolves to; no path resolves differently afterwards.
    On success that output path holds the transformed content of the
    input file, whatever it held before. *)
Theorem file_ops_touch_only_output (isalpha isupper : Z -> bool)
    (s : fs) (input_file : list Z) (shift : Z) (output_file : option (list Z)) :
  (forall ok s' msgs,
     encrypt_file isalpha isupper s input_file shift output_file = (ok, s', msgs) ->
     fs_resolve s' = fs_resolve s
     /\ (forall f, f <> fs_resolve s (resolve_output suffix_encrypted input_file output_file) ->
         fs_file s' f = fs_file s f)
     /\ (ok = true ->
         exists content out, read_file s input_file = inr content
           /\ encrypt isalpha isupper content shift = inr out
           /\ contents s' (resolve_output suffix_encrypted input_file output_file) = Some out))
  /\ (forall ok s' msgs,
     decrypt_file isalpha isupper s input_file shift output_file = (ok, s', msgs) ->
     fs_resolve s' = fs_resolve s
     /\ (forall f, f <> fs_resolve s (resolve_output suffix_decrypted input_file output_file) ->
         fs_file s' f = fs_file s f)
     /\ (ok = true ->
         exists content out, read_file s input_file = inr content
           /\ decrypt isalpha isupper content shift = inr out
           /\ contents s' (resolve_output suffix_decrypted input_file output_file) = Some out)).
Proof.
  split; intros ok s' msgs H;
    destruct (transform_file_frame _ _ _ _ _ _ _ _ _ H) as [Hres Hframe];
    (split; [exact Hres|]); (split; [exact Hframe|]);
    intros ->; exact (transform_file_writes_only_target _ _ _ _ _ _ _ _ H).
Qed.

(** Decrypting, with the same shift, the file written by [encrypt_file]
    (under its derived name) into a path [back] gives back the original
    content when all letters of the content are ASCII. *)
Theorem file_roundtrip_ascii (isalpha isupper : Z -> bool) (s : fs)
    (input_file back : list Z) (shift : Z) (content : list Z) :
  ascii_classes isalpha isupper ->
  contents s input_file = Some content ->
  Forall (fun c => isalpha c = true -> 65 <= c <= 90 \/ 97 <= c <= 122) content ->
  let r1 := encrypt_file isalpha isupper s input_file shift None in
  let r2 := decrypt_file isalpha isupper (snd (fst r1))
              (default_output suffix_encrypted input_file) shift (Some back) in
  fst (fst r1) = true -> fst (fst r2) = true ->
  contents (snd (fst r2)) back = Some content.
Proof.
  intros [Hup Hlo] Hfile Hascii r1 r2 Hok1 Hok2; subst r1 r2.
  destruct (encrypt_file isalpha isupper s input_file shift None)
    as [[b1 s1] m1] eqn:E1; simpl in Hok1, Hok2 |- *; subst b1.
  destruct (decrypt_file isalpha isupper s1 (default_output suffix_encrypted input_file)
              shift (Some back)) as [[b2 s2] m2] eqn:E2; simpl in Hok2 |- *; subst b2.
  apply transform_file_writes_only_target in E1 as (c1 & o1 & Hr1 & Ht1 & Hw1).
  apply transform_file_writes_only_target in E2 as (c2 & o2 & Hr2 & Ht2 & Hw2).
  simpl in Hw1, Hw2.
  apply read_file_content in Hr1, Hr2; rewrite Hfile in Hr1; injection Hr1 as <-.
  rewrite Hw1 in Hr2; injection Hr2 as <-.
  rewrite Hw2; f_equal.
  pose proof (cipher_ok_shift _ _ _ _ _ _ Ht1) as Hs.
  unfold encrypt, decrypt in *; rewrite cipher_valid in Ht1, Ht2 by exact Hs.
  injection Ht1 as <-; injection Ht2 as <-.
  rewrite map_map; rewrite <- (map_id content) at 2; apply map_ext_in.
  intros c Hin; rewrite Forall_forall in Hascii.
  apply cipher_char_roundtrip_ascii; auto.
Qed.

(** ** The interface *)

Section WB.

Variables (P : out_event -> Prop) (Q : cli_exn -> Prop).

Lemma wb_ret {A} (a : A) : wb P Q (cret a).
Proof.
  intros st; simpl; split; [exists []; reflexivity|].
  split; [exists []; now rewrite app_nil_r | discriminate].
Qed.

Lemma wb_throw {A} (e : cli_exn) : Q e -> wb P Q (@cthrow A e).
Proof.
  intros He st; simpl; split; [exists []; reflexivity|].
  split; [exists []; now rewrite app_nil_r | now intros e' [= <-]].
Qed.

Lemma wb_print (o : out_event) : P o -> wb P Q (print o).
Proof.
  intros Ho st; simpl; split; [exists []; reflexivity|].
  split; [exists [o]; auto | discriminate].
Qed.

Lemma wb_bind {A B} (m : CLI A) (k : A -> CLI B) :
  wb P Q m -> (forall a, wb P Q (k a)) -> wb P Q (cbind m k).
Proof.
  intros Hm Hk st; unfold cbind; specialize (Hm st).
  destruct (m st) as [[e|a] st1].
  { destruct Hm as [Hi [Ho Hq]]; split; [exact Hi|]; split; [exact Ho|].
    intros e' [= <-]; now apply Hq. }
  destruct Hm as [(pre1 & Hi1) [(new1 & Ho1 & Hp1) _]].
  specialize (Hk a st1); destruct (k a st1) as [r st2].
  destruct Hk as [(pre2 & Hi2) [(new2 & Ho2 & Hp2) Hq]].
  split; [exists (pre1 ++ pre2); now rewrite Hi1, Hi2, app_assoc|].
  split; [|exact Hq].
  exists (new1 ++ new2); split; [now rewrite Ho2, Ho1, app_assoc | now apply Forall_app].
Qed.

Lemma wb_catch {A} (Q' : cli_exn -> Prop) (m : CLI A) (handler : cli_exn -> option (CLI A)) :
  wb P Q' m ->
  (forall e, Q' e -> match handler e with Some h => wb P Q h | None => Q e end) ->
  wb P Q (ccatch m handler).
Proof.
  intros Hm Hh st; unfold ccatch; specialize (Hm st).
  destruct (m st) as [[e|a] st1] eqn:E.
  - destruct Hm as [(pre1 & Hi1) [(new1 & Ho1 & Hp1) Hq1]].
    specialize (Hh e (Hq1 e eq_refl)); destruct (handler e) as [h|].
    + specialize (Hh st1); destruct (h st1) as [r st2].
      destruct Hh as [(pre2 & Hi2) [(new2 & Ho2 & Hp2) Hq]].
      split; [exists (pre1 ++ pre2); now rewrite Hi1, Hi2, app_assoc|].
      split; [|exact Hq].
      exists (new1 ++ new2); split; [now rewrite Ho2, Ho1, app_assoc | now apply Forall_app].
    + split; [eauto|]; split; [eauto | now intros e' [= <-]].
  - destruct Hm as [Hi [Ho _]]; split; [exact Hi|]; split; [exact Ho | discriminate].
Qed.

Lemma wb_input : Q EOFError -> Q KeyboardInterrupt -> wb P Q input.
Proof.
  intros He Hk st; unfold input.
  destruct (cli_inputs st) as [|[l|] rest] eqn:Hin; simpl.
  - split; [exists []; simpl; now rewrite Hin|].
    split; [exists []; now rewrite app_nil_r | now intros e [= <-]].
  - split; [exists [Line l]; reflexivity|].
    split; [exists []; now rewrite app_nil_r | discriminate].
  - split; [exists [Interrupt]; reflexivity|].
    split; [exists []; now rewrite app_nil_r | now intros e [= <-]].
Qed.

Lemma wb_lift {A} (m : M A) : (forall e, m = inl e -> Q (PyExn e)) -> wb P Q (lift m).
Proof.
  intros Hm; destruct m as [e|a]; simpl; [apply wb_throw; auto | apply wb_ret].
Qed.

End WB.

Section InterfaceFacts.

Variables (isalpha isupper isspace : Z -> bool) (parse_int : list Z -> option Z).

Lemma wb_get_user_input (P : out_event -> Prop) (Q : cli_exn -> Prop) :
  P OutGoodbye -> Q EOFError -> Q (SystemExit 0) ->
  wb P Q (get_user_input isspace).
Proof.
  intros Hp He Hs; unfold get_user_input.
  apply (wb_catch P Q (fun e => e = EOFError \/ e = KeyboardInterrupt)).
  - apply wb_bind; [apply wb_input; auto | intros; apply wb_ret].
  - intros e [-> | ->]; [exact He|].
    apply wb_bind; [apply wb_print; exact Hp | intros; apply wb_throw; exact Hs].
Qed.

Lemma get_valid_shift_loop_wb (P : out_event -> Prop) (Q : cli_exn -> Prop) :
  P OutGoodbye -> P OutNotANumber -> P OutShiftOutOfRange ->
  Q EOFError -> Q (SystemExit 0) ->
  forall inputs s out,
  match get_valid_shift_loop parse_int inputs s out with
  | (r, st') =>
      (exists pre, inputs = pre ++ cli_inputs st')
      /\ cli_fs st' = s
      /\ (exists new, cli_out st' = out ++ new /\ Forall P new)
      /\ (forall e, r = inl e -> Q e)
      /\ (forall n, r = inr n -> 1 <= n <= 25)
  end.
Proof.
  intros Hg Hn Hr He Hs.
  induction inputs as [|[l|] rest IH]; intros s out; simpl.
  - split; [exists []; reflexivity|]; split; [reflexivity|].
    split; [exists []; now rewrite app_nil_r|].
    split; [now intros e [= <-] | discriminate].
  - assert (Hstep : forall o, P o ->
              match get_valid_shift_loop parse_int rest s (out ++ [o]) with
              | (r, st') =>
                  (exists pre, Line l :: rest = pre ++ cli_inputs st')
                  /\ cli_fs st' = s
                  /\ (exists new, cli_out st' = out ++ new /\ Forall P new)
                  /\ (forall e, r = inl e -> Q e)
                  /\ (forall n, r = inr n -> 1 <= n <= 25)
              end).
    { intros o Ho; specialize (IH s (out ++ [o])).
      destruct (get_valid_shift_loop parse_int rest s _) as [r st'].
      destruct IH as [(pre & Hi) [Hfs [(new & Ho' & Hp) [Hq Hv']]]].
      split; [exists (Line l :: pre); now rewrite Hi|]; split; [exact Hfs|].
      split; [|split; assumption].
      exists (o :: new); split; [now rewrite Ho', <- app_assoc | auto]. }
    destruct (parse_int l) as [n|]; [|now apply Hstep].
    destruct ((min_shift <=? n) && (n <=? max_shift)) eqn:Hv; [|now apply Hstep].
    split; [exists [Line l]; reflexivity|]; split; [reflexivity|].
    split; [exists []; now rewrite app_nil_r|].
    split; [discriminate|].
    intros n' [= <-]; unfold min_shift, max_shift in Hv.
    apply andb_true_iff in Hv as [H1 H2]; apply Z.leb_le in H1, H2; lia.
  - split; [exists [Interrupt]; reflexivity|]; split; [reflexivity|].
    split; [exists [OutGoodbye]; auto|].
    split; [now intros e [= <-] | discriminate].
Qed.

Lemma wb_bind_get_valid_shift {B} (P : out_event -> Prop) (Q : cli_exn -> Prop)
    (k : Z -> CLI B) :
  P OutGoodbye -> P OutNotANumber -> P OutShiftOutOfRange ->
  Q EOFError -> Q (SystemExit 0) ->
  (forall n, 1 <= n <= 25 -> wb P Q (k n)) ->
  wb P Q (cbind (get_valid_shift parse_int) k).
Proof.
  intros Hg Hn Hr He Hs Hk st; unfold cbind, get_valid_shift.
  pose proof (get_valid_shift_loop_wb P Q Hg Hn Hr He Hs
                (cli_inputs st) (cli_fs st) (cli_out st)) as H.
  destruct (get_valid_shift_loop _ _ _ _) as [[e|n] st1].
  - destruct H as [Hi [_ [Ho [Hq _]]]]; split; [exact Hi|]; split; [exact Ho|].
    intros e' [= <-]; now apply Hq.
  - destruct H as [(pre1 & Hi1) [_ [(new1 & Ho1 & Hp1) [_ Hv]]]].
    specialize (Hk n (Hv n eq_refl) st1); destruct (k n st1) as [r st2].
    destruct Hk as [(pre2 & Hi2) [(new2 & Ho2 & Hp2) Hq]].
    split; [exists (pre1 ++ pre2); now rewrite Hi1, Hi2, app_assoc|].
    split; [|exact Hq].
    exists (new1 ++ new2); split; [now rewrite Ho2, Ho1, app_assoc | now apply Forall_app].
Qed.

End InterfaceFacts.

Section InterfaceRuns.

Variables (isalpha isupper isspace : Z -> bool) (parse_int : list Z -> option Z).

(** What a run may print and raise: no cipher failure is reported, and
    only end of input or [sys.exit(0)] escapes. *)
Let Pg : out_event -> Prop := fun o => is_cipher_failure o = false.
Let Qg : cli_exn -> Prop := fun e => e = EOFError \/ e = SystemExit 0.

Ltac side := first [reflexivity | left; reflexivity | right; reflexivity].

Ltac wb_auto :=
  repeat first
    [ progress intros
    | apply wb_ret
    | apply wb_print; reflexivity
    | apply wb_get_user_input; side
    | match goal with
      | |- wb _ _ (cbind (get_valid_shift _) _) =>
          apply wb_bind_get_valid_shift; [side ..|]
      | |- wb _ _ (if ?b then _ else _) => destruct b
      | |- wb _ _ (cbind _ _) => apply wb_bind
      end ].

Lemma wb_run_file_op op input_file shift output_file :
  wb Pg Qg (run_file_op op input_file shift output_file).
Proof.
  intros st; unfold run_file_op.
  destruct (op (cli_fs st) input_file shift output_file) as [[ok s'] msgs]; simpl.
  split; [exists []; reflexivity|]; split; [|discriminate].
  exists (map OutFileReport msgs); split; [reflexivity|].
  apply Forall_forall; intros o Ho; apply in_map_iff in Ho as (r & <- & _); reflexivity.
Qed.

Lemma wb_encrypt_message : wb Pg Qg (encrypt_message isalpha isupper isspace parse_int).
Proof.
  unfold encrypt_message; wb_auto.
  unfold encrypt; rewrite cipher_valid by assumption; simpl.
  apply (wb_catch _ _ (fun _ => False)); [wb_auto | intros e []].
Qed.

Lemma wb_decrypt_message : wb Pg Qg (decrypt_message isalpha isupper isspace parse_int).
Proof.
  unfold decrypt_message; wb_auto.
  unfold decrypt; rewrite cipher_valid by assumption; simpl.
  apply (wb_catch _ _ (fun _ => False)); [wb_auto | intros e []].
Qed.

Lemma wb_brute_force_menu : wb Pg Qg (brute_force_menu isalpha isupper isspace).
Proof.
  unfold brute_force_menu; wb_auto.
Qed.

Lemma wb_encrypt_file_menu : wb Pg Qg (encrypt_file_menu isalpha isupper isspace parse_int).
Proof. unfold encrypt_file_menu; wb_auto; apply wb_run_file_op. Qed.

Lemma wb_decrypt_file_menu : wb Pg Qg (decrypt_file_menu isalpha isupper isspace parse_int).
Proof. unfold decrypt_file_menu; wb_auto; apply wb_run_file_op. Qed.

Lemma wb_show_examples_loop (exs : list (list Z * Z)) :
  Forall (fun ex => 1 <= snd ex <= 25) exs ->
  wb Pg Qg (show_examples_loop isalpha isupper exs).
Proof.
  induction 1 as [|[message shift] exs Hs Hexs IH]; simpl in *; [apply wb_ret|].
  unfold encrypt, decrypt; rewrite cipher_valid by exact Hs; simpl.
  apply wb_bind; [apply wb_ret | intros encrypted].
  rewrite cipher_valid by exact Hs; simpl.
  apply wb_bind; [apply wb_ret | intros decrypted].
  apply wb_bind; [exact IH | intros; apply wb_ret].
Qed.

Lemma wb_show_examples : wb Pg Qg (show_examples isalpha isupper).
Proof.
  unfold show_examples; apply wb_bind; [|wb_auto].
  apply wb_show_examples_loop; unfold examples; repeat constructor; simpl; lia.
Qed.

Lemma wb_dispatch (choice : list Z) :
  wb Pg Qg (dispatch isalpha isupper isspace parse_int choice).
Proof.
  unfold dispatch;
  repeat match goal with |- wb _ _ (if ?b then _ else _) => destruct b end;
  (apply wb_bind; [|intros; apply wb_ret]);
  first [ apply wb_encrypt_message | apply wb_decrypt_message | apply wb_brute_force_menu
        | apply wb_encrypt_file_menu | apply wb_decrypt_file_menu | apply wb_show_examples
        | apply wb_print; reflexivity ].
Qed.

Lemma wb_iteration_after_choice (choice : list Z) :
  wb Pg Qg
    (running <-- dispatch isalpha isupper isspace parse_int choice ;;;
     if running && existsb (list_Z_eqb choice) choices_1_to_7 then
       continue_choice <-- get_user_input isspace ;;;
       if is_q continue_choice then _ <-- print OutGoodbye ;;; cret false
       else cret true
     else cret running).
Proof. apply wb_bind; [apply wb_dispatch | wb_auto]. Qed.

Lemma wb_iteration : wb Pg Qg (iteration isalpha isupper isspace parse_int).
Proof.
  unfold iteration; apply wb_bind; [apply wb_print; reflexivity | intros _].
  apply wb_bind; [apply wb_get_user_input; side | apply wb_iteration_after_choice].
Qed.

Lemma get_user_input_line (st st' : cli) (l : list Z) :
  get_user_input isspace st = (inr l, st') ->
  exists raw, cli_inputs st = Line raw :: cli_inputs st'.
Proof.
  unfold get_user_input, ccatch, cbind, input.
  destruct (cli_inputs st) as [|[raw|] rest]; simpl.
  - discriminate.
  - intros [= _ <-]; exists raw; reflexivity.
  - unfold print, sys_exit, cthrow; simpl; discriminate.
Qed.

(** A round that does not stop the program consumes at least one input. *)
Lemma iteration_consumes (st st' : cli) (running : bool) :
  iteration isalpha isupper isspace parse_int st = (inr running, st') ->
  (List.length (cli_inputs st') < List.length (cli_inputs st))%nat.
Proof.
  intros H; unfold iteration in H; unfold cbind at 1 in H; simpl in H.
  unfold cbind at 1 in H.
  destruct (get_user_input isspace _) as [[e|choice] st2] eqn:Eg; [discriminate|].
  apply get_user_input_line in Eg as (raw & Hraw); simpl in Hraw.
  pose proof (wb_iteration_after_choice choice st2) as Hw.
  simpl in Hw; rewrite H in Hw; destruct Hw as [(pre & Hi) _].
  rewrite Hraw, Hi; simpl; rewrite length_app; lia.
Qed.

Lemma run_loop_some (fuel : nat) :
  forall st, (List.length (cli_inputs st) < fuel)%nat ->
  run_loop isalpha isupper isspace parse_int fuel st <> None.
Proof.
  induction fuel as [|fuel IH]; intros st Hlt; [lia|]; simpl.
  destruct (iteration isalpha isupper isspace parse_int st) as [[e|[|]] st'] eqn:E;
    try discriminate.
  apply IH; apply iteration_consumes in E; lia.
Qed.

Lemma run_loop_wb (fuel : nat) :
  forall st r st', run_loop isalpha isupper isspace parse_int fuel st = Some (r, st') ->
  (exists new, cli_out st' = cli_out st ++ new /\ Forall Pg new)
  /\ (forall e, r = inl e -> Qg e).
Proof.
  induction fuel as [|fuel IH]; intros st r st' H; simpl in H; [discriminate|].
  pose proof (wb_iteration st) as Hw.
  destruct (iteration isalpha isupper isspace parse_int st) as [[e|[|]] st1];
    destruct Hw as [_ [(new1 & Ho1 & Hp1) Hq1]].
  - injection H as <- <-; split; [eauto | intros e' [= <-]; now apply Hq1].
  - destruct (IH st1 r st' H) as [(new2 & Ho2 & Hp2) Hq2].
    split; [|exact Hq2].
    exists (new1 ++ new2); split; [now rewrite Ho2, Ho1, app_assoc | now apply Forall_app].
  - injection H as <- <-; split; [eauto | discriminate].
Qed.

End InterfaceRuns.

(** [main] terminates on every finite input: every round of the menu loop
    reads at least one input event. *)
Theorem main_terminates (isalpha isupper isspace : Z -> bool)
    (parse_int : list Z -> option Z) (inputs : list input_event) (s : fs) :
  main isalpha isupper isspace parse_int inputs s <> None.
Proof.
  unfold main, print; cbn -[run_loop].
  pose proof (run_loop_some isalpha isupper isspace parse_int (S (List.length inputs))
                (mk_cli inputs s [OutHeader]) ltac:(simpl; lia)) as H.
  destruct (run_loop _ _ _ _ _ _) as [[[e|u] st]|]; [destruct e | | ]; congruence.
Qed.

(** No run of the interface reports a failed encryption or decryption:
    the shifts it passes to the cipher are always in [1, 25]. *)
Theorem main_never_reports_cipher_failure (isalpha isupper isspace : Z -> bool)
    (parse_int : list Z -> option Z) (inputs : list input_event) (s : fs)
    (code : Z) (outs : list out_event) (s' : fs) :
  main isalpha isupper isspace parse_int inputs s = Some (code, outs, s') ->
  forall o, In o outs -> is_cipher_failure o = false.
Proof.
  unfold main, print; cbn -[run_loop].
  destruct (run_loop _ _ _ _ _ _) as [[r st]|] eqn:E; [|discriminate].
  apply run_loop_wb in E as [(new & Ho & Hp) Hq]; simpl in Ho.
  assert (Hall : forall o, In o (cli_out st) -> is_cipher_failure o = false).
  { rewrite Ho; intros o [<- | Hin]; [reflexivity|].
    rewrite Forall_forall in Hp; exact (Hp o Hin). }
  destruct r as [e|u]; [|intros [= _ <- _]; exact Hall].
  destruct (Hq e eq_refl) as [-> | ->]; intros [= _ <- _]; [|exact Hall].
  intros o Hin; apply in_app_or in Hin as [Hin | [<- | []]]; [now apply Hall | reflexivity].
Qed.

Lemma main_never_reports_cipher_failure_witness :
  exists code outs s',
    main py_isalpha py_isupper py_isspace py_int demo_inputs demo_fs = Some (code, outs, s')
    /\ forall o, In o outs -> is_cipher_failure o = false.
Proof.
  destruct (main py_isalpha py_isupper py_isspace py_int demo_inputs demo_fs)
    as [[[code outs] s']|] eqn:E; [|vm_compute in E; discriminate].
  exists code, outs, s'; split; [reflexivity|].
  exact (main_never_reports_cipher_failure py_isalpha py_isupper py_isspace py_int
           demo_inputs demo_fs code outs s' E).
Defined.

Example demo_session :
  match main py_isalpha py_isupper py_isspace py_int demo_inputs demo_fs with
  | Some (code, outs, _) => (code, outs)
  | None => (0, [])
  end
  = (1, [OutHeader; OutMenu; OutTitle "ENCRYPT MESSAGE"; OutNotANumber; OutShiftOutOfRange;
         OutEncrypted (str "Hello") (str "Khoor") 3; OutUnexpectedError EOFError]).
Proof. vm_compute. reflexivity. Qed.

Lemma list_Z_eqb_true (a b : list Z) : list_Z_eqb a b = true <-> a = b.
Proof.
  unfold list_Z_eqb; destruct (list_eq_dec Z.eq_dec a b); split; congruence.
Qed.

(** [get_valid_shift] returns the first line that [int] parses to a
    number in [1, 25]. Every line before it is either not a number or out
    of range and gets one error message of its kind; the file system is
    left alone. *)
Theorem get_valid_shift_first_valid (parse_int : list Z -> option Z) (st st' : cli) (n : Z) :
  get_valid_shift parse_int st = (inr n, st') ->
  1 <= n <= 25
  /\ exists skipped l,
       cli_inputs st = map Line skipped ++ Line l :: cli_inputs st'
       /\ parse_int l = Some n
       /\ Forall (fun l' => forall k, parse_int l' = Some k -> ~ (1 <= k <= 25)) skipped
       /\ cli_fs st' = cli_fs st
       /\ cli_out st' = cli_out st ++ map (fun l' => match parse_int l' with
                                                   | None => OutNotANumber
                                                   | Some _ => OutShiftOutOfRange
                                                   end) skipped.
Proof.
  unfold get_valid_shift; destruct st as [inputs s out]; simpl.
  revert out; induction inputs as [|[l|] rest IH]; intros out; simpl; [discriminate| |discriminate].
  unfold min_shift, max_shift.
  destruct (parse_int l) as [k|] eqn:Hp.
  - destruct ((1 <=? k) && (k <=? 25)) eqn:Hb.
    + intros [= <- <-]; apply andb_true_iff in Hb as [H1 H2]; apply Z.leb_le in H1, H2.
      split; [lia|]; exists [], l; simpl; rewrite app_nil_r; repeat split; auto.
    + intros H; destruct (IH _ H) as [Hn (sk & l' & Hin & Hp' & Hf & Hfs & Ho)].
      split; [exact Hn|]; exists (l :: sk), l'; simpl; rewrite Hin.
      repeat split; auto.
      * constructor; [|exact Hf]; intros k' Hk'; rewrite Hp in Hk'; injection Hk' as <-.
        intros [H1 H2]; apply Z.leb_le in H1, H2; rewrite H1, H2 in Hb; discriminate.
      * rewrite Ho, Hp, <- app_assoc; reflexivity.
  - intros H; destruct (IH _ H) as [Hn (sk & l' & Hin & Hp' & Hf & Hfs & Ho)].
    split; [exact Hn|]; exists (l :: sk), l'; simpl; rewrite Hin.
    repeat split; auto.
    + constructor; [|exact Hf]; intros k' Hk'; congruence.
    + rewrite Ho, Hp, <- app_assoc; reflexivity.
Qed.

Lemma get_valid_shift_first_valid_witness :
  get_valid_shift py_int shift_demo_start
    = (inr 12, mk_cli [Line (str "9")] demo_fs [OutNotANumber; OutShiftOutOfRange])
  /\ 1 <= 12 <= 25
  /\ exists skipped l,
       cli_inputs shift_demo_start = map Line skipped ++ Line l :: [Line (str "9")]
       /\ py_int l = Some 12
       /\ Forall (fun l' => forall k, py_int l' = Some k -> ~ (1 <= k <= 25)) skipped
       /\ demo_fs = cli_fs shift_demo_start
       /\ [OutNotANumber; OutShiftOutOfRange]
          = cli_out shift_demo_start ++ map (fun l' => match py_int l' with
                                                      | None => OutNotANumber
                                                      | Some _ => OutShiftOutOfRange
                                                      end) skipped.
Proof.
  split; [reflexivity|].
  exact (get_valid_shift_first_valid py_int shift_demo_start
           (mk_cli [Line (str "9")] demo_fs [OutNotANumber; OutShiftOutOfRange]) 12
           eq_refl).
Defined.

(** A message or a path that is empty after [strip()] (an empty line,
    or one of blanks only) is refused: each handler prints its title and
    the "cannot be empty" message, consumes only that line and returns
    without touching the files. *)
Theorem handlers_reject_blank_input (isalpha isupper isspace : Z -> bool)
    (parse_int : list Z -> option Z) (st : cli) (l : list Z) (rest : list input_event) :
  cli_inputs st = Line l :: rest -> strip isspace l = [] ->
  let done t e := (inr tt, mk_cli rest (cli_fs st) (cli_out st ++ [OutTitle t; e])) in
  encrypt_message isalpha isupper isspace parse_int st = done "ENCRYPT MESSAGE"%string OutMessageEmpty
  /\ decrypt_message isalpha isupper isspace parse_int st = done "DECRYPT MESSAGE"%string OutMessageEmpty
  /\ brute_force_menu isalpha isupper isspace st = done "BRUTE FORCE DECRYPT"%string OutMessageEmpty
  /\ encrypt_file_menu isalpha isupper isspace parse_int st = done "ENCRYPT FILE"%string OutPathEmpty
  /\ decrypt_file_menu isalpha isupper isspace parse_int st = done "DECRYPT FILE"%string OutPathEmpty.
Proof.
  intros Hin Hs done; subst done; destruct st as [inputs s out]; simpl in Hin; subst inputs.
  repeat split;
    cbv [encrypt_message decrypt_message brute_force_menu encrypt_file_menu decrypt_file_menu
         cbind print get_user_input ccatch input cret]; simpl;
    rewrite Hs; simpl; rewrite <- app_assoc; reflexivity.
Qed.

Lemma handlers_reject_blank_input_witness :
  let st := mk_cli [Line (str "   "); Line (str "3")] demo_fs [] in
  cli_inputs st = Line (str "   ") :: [Line (str "3")] /\ strip py_isspace (str "   ") = []
  /\ let done t e := (inr tt, mk_cli [Line (str "3")] (cli_fs st) (cli_out st ++ [OutTitle t; e])) in
  encrypt_message py_isalpha py_isupper py_isspace py_int st = done "ENCRYPT MESSAGE"%string OutMessageEmpty
  /\ decrypt_message py_isalpha py_isupper py_isspace py_int st = done "DECRYPT MESSAGE"%string OutMessageEmpty
  /\ brute_force_menu py_isalpha py_isupper py_isspace st = done "BRUTE FORCE DECRYPT"%string OutMessageEmpty
  /\ encrypt_file_menu py_isalpha py_isupper py_isspace py_int st = done "ENCRYPT FILE"%string OutPathEmpty
  /\ decrypt_file_menu py_isalpha py_isupper py_isspace py_int st = done "DECRYPT FILE"%string OutPathEmpty.
Proof.
  intros st; split; [reflexivity|]; split; [reflexivity|].
  exact (handlers_reject_blank_input py_isalpha py_isupper py_isspace py_int st
           (str "   ") [Line (str "3")] eq_refl eq_refl).
Defined.

Lemma cbind_cret_true {A} (m : CLI A) (st st' : cli) (b : bool) :
  (_ <-- m ;;; cret true) st = (inr b, st') -> b = true.
Proof. unfold cbind, cret; destruct (m st) as [[e|a] s1]; congruence. Qed.

Lemma dispatch_false (isalpha isupper isspace : Z -> bool) (parse_int : list Z -> option Z)
    (choice : list Z) (st st' : cli) :
  dispatch isalpha isupper isspace parse_int choice st = (inr false, st') -> choice = str "8".
Proof.
  unfold dispatch.
  repeat (let E := fresh "E" in
          match goal with
          | |- (if list_Z_eqb choice ?x then _ else _) _ = _ -> _ =>
              destruct (list_Z_eqb choice x) eqn:E
          end;
          [first [ intros H; apply cbind_cret_true in H; discriminate
                 | intros _; now apply list_Z_eqb_true ] |]).
  intros H; apply cbind_cret_true in H; discriminate.
Qed.


Lemma str_8_not_action : ~ In (str "8") choices_1_to_7.
Proof. simpl; intuition discriminate. Qed.

(** A menu choice that starts no action consumes only its line and skips
    the "Press Enter to continue" prompt: "8" prints the farewell and ends
    the loop; a choice other than "1" to "8" (after [strip()]) prints the
    invalid-choice message and shows the menu again. *)
Theorem iteration_choice_without_action (isalpha isupper isspace : Z -> bool)
    (parse_int : list Z -> option Z) (st : cli) (raw : list Z) (rest : list input_event) :
  cli_inputs st = Line raw :: rest ->
  (strip isspace raw = str "8" ->
   iteration isalpha isupper isspace parse_int st
   = (inr false, mk_cli rest (cli_fs st) (cli_out st ++ [OutMenu; OutThankYou])))
  /\ (~ In (strip isspace raw) (str "8" :: choices_1_to_7) ->
      iteration isalpha isupper isspace parse_int st
      = (inr true, mk_cli rest (cli_fs st) (cli_out st ++ [OutMenu; OutInvalidChoice]))).
Proof.
  intros Hin; destruct st as [inputs s out]; simpl in Hin; subst inputs.
  unfold iteration; unfold cbind at 1; simpl; unfold cbind at 1; simpl.
  unfold get_user_input, ccatch, input, cbind, cret; simpl.
  split; intros Hc.
  - rewrite Hc; simpl; rewrite <- app_assoc; reflexivity.
  - set (c := strip isspace raw) in *.
    assert (Hne : forall k, In k (str "8" :: choices_1_to_7) -> list_Z_eqb c k = false).
    { intros k Hk; destruct (list_Z_eqb c k) eqn:E; [|reflexivity].
      apply list_Z_eqb_true in E; subst k; contradiction. }
    unfold dispatch; unfold choices_1_to_7 in *;
    rewrite !Hne by (simpl; auto 12); simpl.
    rewrite <- app_assoc; reflexivity.
Qed.

Lemma iteration_choice_without_action_witness :
  let st := mk_cli [Line (str " 8 "); Line (str "1")] demo_fs [] in
  cli_inputs st = Line (str " 8 ") :: [Line (str "1")]
  /\ (strip py_isspace (str " 8 ") = str "8" ->
      iteration py_isalpha py_isupper py_isspace py_int st
      = (inr false, mk_cli [Line (str "1")] (cli_fs st) (cli_out st ++ [OutMenu; OutThankYou])))
  /\ (~ In (strip py_isspace (str " 8 ")) (str "8" :: choices_1_to_7) ->
      iteration py_isalpha py_isupper py_isspace py_int st
      = (inr true, mk_cli [Line (str "1")] (cli_fs st) (cli_out st ++ [OutMenu; OutInvalidChoice]))).
Proof.
  intros st; split; [reflexivity|].
  exact (iteration_choice_without_action py_isalpha py_isupper py_isspace py_int st
           (str " 8 ") [Line (str "1")] eq_refl).
Defined.

(** After an action ("1" to "7") that returns normally, the loop asks to
    continue: a reply of "q" or "Q" prints "Goodbye" and ends the loop,
    any other reply shows the menu again. *)
Theorem iteration_continue_prompt (isalpha isupper isspace : Z -> bool)
    (parse_int : list Z -> option Z) (st st2 : cli) (raw c : list Z)
    (rest rest' : list input_event) (b : bool) :
  cli_inputs st = Line raw :: rest ->
  In (strip isspace raw) choices_1_to_7 ->
  dispatch isalpha isupper isspace parse_int (strip isspace raw)
    (mk_cli rest (cli_fs st) (cli_out st ++ [OutMenu])) = (inr b, st2) ->
  cli_inputs st2 = Line c :: rest' ->
  iteration isalpha isupper isspace parse_int st
  = (inr (negb (is_q (strip isspace c))),
     mk_cli rest' (cli_fs st2)
       (cli_out st2 ++ if is_q (strip isspace c) then [OutGoodbye] else [])).
Proof.
  intros Hin Hch Hd Hin2; destruct st as [inputs s out]; simpl in Hin; subst inputs.
  unfold iteration; unfold cbind at 1; simpl; unfold cbind at 1; simpl.
  unfold get_user_input at 1, ccatch at 1, input at 1, cbind at 1 2 3, cret at 1; simpl.
  simpl in Hd; rewrite Hd.
  destruct b; [|apply dispatch_false in Hd; rewrite Hd in Hch; contradiction (str_8_not_action Hch)].
  assert (He : existsb (list_Z_eqb (strip isspace raw)) choices_1_to_7 = true).
  { apply existsb_exists; exists (strip isspace raw); split; [exact Hch|].
    now apply list_Z_eqb_true. }
  simpl in He; rewrite He; simpl.
  unfold cbind, get_user_input, ccatch, input, cbind, cret; rewrite Hin2; simpl.
  destruct st2 as [i2 f2 o2]; simpl.
  destruct (is_q (strip isspace c)); simpl; [reflexivity | rewrite app_nil_r; reflexivity].
Qed.

Lemma iteration_continue_prompt_witness :
  let st := mk_cli [Line (str "7"); Line (str "Q")] demo_fs [] in
  let st2 := mk_cli [Line (str "Q")] demo_fs [OutMenu; OutHelp] in
  cli_inputs st = Line (str "7") :: [Line (str "Q")]
  /\ In (strip py_isspace (str "7")) choices_1_to_7
  /\ dispatch py_isalpha py_isupper py_isspace py_int (strip py_isspace (str "7"))
       (mk_cli [Line (str "Q")] (cli_fs st) (cli_out st ++ [OutMenu])) = (inr true, st2)
  /\ cli_inputs st2 = Line (str "Q") :: []
  /\ iteration py_isalpha py_isupper py_isspace py_int st
     = (inr (negb (is_q (strip py_isspace (str "Q")))),
        mk_cli [] (cli_fs st2)
          (cli_out st2 ++ if is_q (strip py_isspace (str "Q")) then [OutGoodbye] else [])).
Proof.
  intros st st2.
  assert (H1 : cli_inputs st = Line (str "7") :: [Line (str "Q")]) by reflexivity.
  assert (H2 : In (strip py_isspace (str "7")) choices_1_to_7) by (simpl; auto 10).
  assert (H3 : dispatch py_isalpha py_isupper py_isspace py_int (strip py_isspace (str "7"))
       (mk_cli [Line (str "Q")] (cli_fs st) (cli_out st ++ [OutMenu])) = (inr true, st2))
    by reflexivity.
  assert (H4 : cli_inputs st2 = Line (str "Q") :: []) by reflexivity.
  split; [exact H1|]; split; [exact H2|]; split; [exact H3|]; split; [exact H4|].
  exact (iteration_continue_prompt py_isalpha py_isupper py_isspace py_int st st2
           (str "7") (str "Q") [Line (str "Q")] [] true H1 H2 H3 H4).
Defined.

Lemma get_user_input_frame (isspace : Z -> bool) (st st' : cli) (r : sum cli_exn (list Z)) :
  get_user_input isspace st = (r, st') ->
  cli_fs st' = cli_fs st /\ (cli_out st' = cli_out st \/ cli_out st' = cli_out st ++ [OutGoodbye]).
Proof.
  unfold get_user_input, ccatch, cbind, input, cret, print, sys_exit, cthrow.
  destruct (cli_inputs st) as [|[l|] rest]; simpl; intros [= <- <-]; simpl; auto.
Qed.

Lemma get_valid_shift_frame (parse_int : list Z -> option Z) (st st' : cli) (r : sum cli_exn Z) :
  get_valid_shift parse_int st = (r, st') ->
  cli_fs st' = cli_fs st
  /\ exists new, cli_out st' = cli_out st ++ new
     /\ Forall (fun o => o = OutGoodbye \/ o = OutNotANumber \/ o = OutShiftOutOfRange) new.
Proof.
  unfold get_valid_shift; intros H.
  pose proof (get_valid_shift_loop_wb parse_int
                (fun o => o = OutGoodbye \/ o = OutNotANumber \/ o = OutShiftOutOfRange)
                (fun _ => True) ltac:(cbv beta; auto) ltac:(cbv beta; auto) ltac:(cbv beta; auto) I I
                (cli_inputs st) (cli_fs st) (cli_out st)) as Hw.
  rewrite H in Hw; destruct Hw as [_ [Hfs [Ho _]]]; split; assumption.
Qed.

Lemma quiet_refl (st : cli) : quiet_since st st.
Proof. split; [reflexivity | exists []; now rewrite app_nil_r]. Qed.

Lemma quiet_print (st stk : cli) (o : out_event) :
  quiet_since st stk -> is_file_announcement o = false ->
  quiet_since st (mk_cli (cli_inputs stk) (cli_fs stk) (cli_out stk ++ [o])).
Proof.
  intros [Hfs (new & Ho & Hf)] Hq; split; [exact Hfs|].
  exists (new ++ [o]); simpl; rewrite Ho, app_assoc; split; [reflexivity|].
  apply Forall_app; auto.
Qed.

Lemma quiet_get_user_input (isspace : Z -> bool) (st stk stk' : cli) r :
  quiet_since st stk -> get_user_input isspace stk = (r, stk') -> quiet_since st stk'.
Proof.
  intros [Hfs (new & Ho & Hf)] Hg; apply get_user_input_frame in Hg as [Hfs' [Ho' | Ho']].
  - split; [congruence | exists new; rewrite Ho'; auto].
  - split; [congruence|]; exists (new ++ [OutGoodbye]); rewrite Ho', Ho, app_assoc.
    split; [reflexivity | apply Forall_app; auto].
Qed.

Lemma quiet_get_valid_shift (parse_int : list Z -> option Z) (st stk stk' : cli) r :
  quiet_since st stk -> get_valid_shift parse_int stk = (r, stk') -> quiet_since st stk'.
Proof.
  intros [Hfs (new & Ho & Hf)] Hg; apply get_valid_shift_frame in Hg as [Hfs' (new' & Ho' & Hf')].
  split; [congruence|]; exists (new ++ new'); rewrite Ho', Ho, app_assoc.
  split; [reflexivity | apply Forall_app; split; [exact Hf|]].
  eapply Forall_impl; [|exact Hf']; intros o [-> | [-> | ->]]; reflexivity.
Qed.

Lemma quiet_absurd (st stk : cli) (ev : out_event) :
  quiet_since st stk -> is_file_announcement ev = true ->
  ~ In ev (cli_out st) -> In ev (cli_out stk) -> False.
Proof.
  intros [_ (new & Ho & Hf)] Hev Hnot Hin; rewrite Ho in Hin.
  apply in_app_or in Hin as [Hin | Hin]; [contradiction|].
  rewrite Forall_forall in Hf; specialize (Hf ev Hin); congruence.
Qed.

Lemma final_output_resolve (suffix input_file : list Z) (output_file : option (list Z)) :
  match output_file with
  | Some o => o
  | None => fst (splitext input_file) ++ suffix ++ snd (splitext input_file)
  end = resolve_output suffix input_file output_file.
Proof.
  destruct output_file; unfold resolve_output, default_output; [reflexivity|].
  destruct (splitext input_file); reflexivity.
Qed.

Ltac quiet_contra Q :=
  exfalso;
  match goal with
  | Hnot : ~ In ?ev _, Hin : In ?ev _ |- _ =>
      apply (quiet_absurd _ _ ev Q eq_refl Hnot Hin)
  end.

(** The steps of [encrypt_file_menu] and [decrypt_file_menu] after the
    title: the announcement printed on success names the file written. *)
Ltac file_menu_announce H Hin :=
  unfold cbind at 1 in H;
  let E2 := fresh "E" in let E3 := fresh "E" in let E4 := fresh "E" in
  let E5 := fresh "E" in let E6 := fresh "E" in let Eop := fresh "Eop" in
  match type of H with
  | (let (_, _) := get_user_input ?sp ?st1 in _) = _ =>
      destruct (get_user_input sp st1) as [[e|inp] st2] eqn:E2;
      (eapply quiet_get_user_input in E2; [|apply quiet_print; [apply quiet_refl | reflexivity]]);
      [injection H as <- <-; quiet_contra E2|];
      destruct (negb (list_Z_nonempty inp));
      [unfold print in H; injection H as <- <-;
       quiet_contra (quiet_print _ _ OutPathEmpty E2 eq_refl)|];
      unfold cbind at 1 in H;
      destruct (get_valid_shift _ st2) as [[e|shift] st3] eqn:E3;
      apply (quiet_get_valid_shift _ _ _ _ _ E2) in E3;
      [injection H as <- <-; quiet_contra E3|];
      unfold cbind at 1 in H;
      destruct (get_user_input sp st3) as [[e|output] st4] eqn:E4;
      apply (quiet_get_user_input _ _ _ _ _ E3) in E4;
      [injection H as <- <-; quiet_contra E4|];
      set (output_file := if list_Z_nonempty output then Some output else None) in H;
      rewrite final_output_resolve in H;
      unfold cbind at 1, print at 1 in H; cbv beta iota in H;
      match type of H with
      | context [cli_out st4 ++ [?o]] => pose proof (quiet_print _ _ o E4 eq_refl) as E5
      end;
      unfold cbind at 1 in H;
      destruct (run_file_op _ inp shift output_file _) as [[e|ok] st6] eqn:E6;
      unfold run_file_op in E6;
      (match type of E6 with
       | match ?x with _ => _ end = _ => destruct x as [[ok' s'] msgs] eqn:Eop
       end); [discriminate E6 | injection E6 as <- <-];
      destruct E5 as [Hfs5 (new5 & Ho5 & Hf5)]; simpl in Hfs5, Ho5, Eop;
      rewrite Forall_forall in Hf5;
      match type of H with (if ?b then _ else _) _ = _ => destruct b end;
      [ unfold print in H; injection H as <- <-; simpl in Hin; rewrite Ho5 in Hin;
        apply in_app_or in Hin as [Hin | [Hev | []]];
        [ apply in_app_or in Hin as [Hin | Hin];
          [ apply in_app_or in Hin as [Hin | Hin]; [contradiction | specialize (Hf5 _ Hin); discriminate]
          | apply in_map_iff in Hin as (x & Hx & _); discriminate ]
        | injection Hev as <- <-;
          first [unfold encrypt_file in Eop | unfold decrypt_file in Eop];
          apply transform_file_writes_only_target in Eop as (content & out & Hr & Ht & Hw);
          exists inp, content, out; split;
          [rewrite <- Hfs5; exact (read_file_content _ _ _ Hr) | split; [exact Ht | exact Hw]] ]
      | unfold cret in H; injection H as <- <-; simpl in Hin; rewrite Ho5 in Hin;
        apply in_app_or in Hin as [Hin | Hin];
        [ apply in_app_or in Hin as [Hin | Hin]; [contradiction | specialize (Hf5 _ Hin); discriminate]
        | apply in_map_iff in Hin as (x & Hx & _); discriminate ] ]
  end.

(** A file menu announces a saved file only after writing it: when
    [encrypt_file_menu] prints "Output saved to" a path [p] with shift
    [n], the file [p] now holds the encryption with shift [n] of a file
    that existed before the call (the derived name it prints,
    [f"{name}_encrypted{ext}"], is the one [encrypt_file] wrote to);
    the same holds for [decrypt_file_menu]. *)
Theorem file_menus_announce_written_file (isalpha isupper isspace : Z -> bool)
    (parse_int : list Z -> option Z) (st : cli) (r : sum cli_exn unit) (st' : cli)
    (p : list Z) (n : Z) :
  (encrypt_file_menu isalpha isupper isspace parse_int st = (r, st') ->
   ~ In (OutFileEncrypted p n) (cli_out st) -> In (OutFileEncrypted p n) (cli_out st') ->
   exists inp content out, contents (cli_fs st) inp = Some content
     /\ encrypt isalpha isupper content n = inr out /\ contents (cli_fs st') p = Some out)
  /\ (decrypt_file_menu isalpha isupper isspace parse_int st = (r, st') ->
   ~ In (OutFileDecrypted p n) (cli_out st) -> In (OutFileDecrypted p n) (cli_out st') ->
   exists inp content out, contents (cli_fs st) inp = Some content
     /\ decrypt isalpha isupper content n = inr out /\ contents (cli_fs st') p = Some out).
Proof.
  split; intros H Hnot Hin.
  - unfold encrypt_file_menu, cbind at 1, print at 1 in H; cbv beta iota in H.
    file_menu_announce H Hin.
  - unfold decrypt_file_menu, cbind at 1, print at 1 in H; cbv beta iota in H.
    file_menu_announce H Hin.
Qed.

(** Every letter of a concrete text is an ASCII letter. *)
Ltac ascii_letters_only :=
  let c := fresh "c" in let Hc := fresh "Hc" in let Ha := fresh "Ha" in
  apply Forall_forall; intros c Hc; vm_compute in Hc;
  repeat destruct Hc as [<- | Hc]; try contradiction;
  intros Ha; vm_compute in Ha; first [discriminate Ha | lia].

Lemma py_ascii_classes : ascii_classes py_isalpha py_isupper.
Proof.
  split; intros x Hx; unfold py_isalpha, py_isupper; split; decide_class.
Qed.

Lemma decrypt_is_encrypt_complement_witness :
  1 <= 3 <= 25
  /\ decrypt py_isalpha py_isupper (str "Khoor, Zruog!") 3
     = encrypt py_isalpha py_isupper (str "Khoor, Zruog!") (26 - 3).
Proof.
  split; [lia|].
  exact (decrypt_is_encrypt_complement py_isalpha py_isupper (str "Khoor, Zruog!") 3
           ltac:(lia)).
Defined.

Lemma cipher_roundtrip_ascii_witness :
  (forall x, 65 <= x <= 90 -> py_isalpha x = true /\ py_isupper x = true)
  /\ (forall x, 97 <= x <= 122 -> py_isalpha x = true /\ py_isupper x = false)
  /\ Forall (fun c => py_isalpha c = true -> 65 <= c <= 90 \/ 97 <= c <= 122)
       (str "Hello, World!")
  /\ 1 <= 3 <= 25
  /\ bind (encrypt py_isalpha py_isupper (str "Hello, World!") 3)
       (fun e => decrypt py_isalpha py_isupper e 3) = inr (str "Hello, World!").
Proof.
  destruct py_ascii_classes as [Hup Hlo].
  assert (Hf : Forall (fun c => py_isalpha c = true -> 65 <= c <= 90 \/ 97 <= c <= 122)
                 (str "Hello, World!")).
  { ascii_letters_only. }
  split; [exact Hup|]; split; [exact Hlo|]; split; [exact Hf|]; split; [lia|].
  exact (cipher_roundtrip_ascii py_isalpha py_isupper (str "Hello, World!") 3
           Hup Hlo Hf ltac:(lia)).
Defined.

Lemma cipher_roundtrip_normalizes_witness :
  ascii_classes py_isalpha py_isupper
  /\ 1 <= 3 <= 25
  /\ bind (encrypt py_isalpha py_isupper sample_text 3)
       (fun e => decrypt py_isalpha py_isupper e 3)
     = inr (map (cipher_char py_isalpha py_isupper 0) sample_text).
Proof.
  split; [exact py_ascii_classes|]; split; [lia|].
  exact (cipher_roundtrip_normalizes py_isalpha py_isupper sample_text 3
           py_ascii_classes ltac:(lia)).
Defined.

Lemma encrypt_compose_witness :
  ascii_classes py_isalpha py_isupper
  /\ 1 <= 20 <= 25 /\ 1 <= 10 <= 25 /\ (20 + 10) mod 26 <> 0
  /\ bind (encrypt py_isalpha py_isupper (str "Attack at dawn!") 20)
       (fun e => encrypt py_isalpha py_isupper e 10)
     = encrypt py_isalpha py_isupper (str "Attack at dawn!") ((20 + 10) mod 26).
Proof.
  split; [exact py_ascii_classes|]; split; [lia|]; split; [lia|].
  split; [vm_compute; discriminate|].
  exact (encrypt_compose py_isalpha py_isupper (str "Attack at dawn!") 20 10
           py_ascii_classes ltac:(lia) ltac:(lia) ltac:(vm_compute; discriminate)).
Defined.

Lemma brute_force_finds_unique_shift_witness :
  ascii_classes py_isalpha py_isupper
  /\ Forall (fun c => py_isalpha c = true -> 65 <= c <= 90 \/ 97 <= c <= 122) (str "Hi 5!")
  /\ Exists (fun c => py_isalpha c = true) (str "Hi 5!")
  /\ 1 <= 5 <= 25
  /\ exists encrypted results,
       encrypt py_isalpha py_isupper (str "Hi 5!") 5 = inr encrypted
       /\ brute_force_decrypt py_isalpha py_isupper encrypted = inr results
       /\ forall s, 1 <= s <= 25 -> (dict_get results s = Some (str "Hi 5!") <-> s = 5).
Proof.
  assert (Hf : Forall (fun c => py_isalpha c = true -> 65 <= c <= 90 \/ 97 <= c <= 122)
                 (str "Hi 5!")).
  { ascii_letters_only. }
  assert (He : Exists (fun c => py_isalpha c = true) (str "Hi 5!")).
  { apply Exists_cons_hd; reflexivity. }
  split; [exact py_ascii_classes|]; split; [exact Hf|]; split; [exact He|]; split; [lia|].
  exact (brute_force_finds_unique_shift py_isalpha py_isupper (str "Hi 5!") 5
           py_ascii_classes Hf He ltac:(lia)).
Defined.

Lemma brute_force_no_letters_witness :
  Forall (fun x => py_isalpha x = false) (str "2024: 10%")
  /\ brute_force_decrypt py_isalpha py_isupper (str "2024: 10%")
     = inr (map (fun s => (s, str "2024: 10%")) (range 1 26)).
Proof.
  assert (Hf : Forall (fun x => py_isalpha x = false) (str "2024: 10%")).
  { apply Forall_forall; intros c Hc; vm_compute in Hc;
    repeat destruct Hc as [<- | Hc]; try contradiction; reflexivity. }
  split; [exact Hf|].
  exact (brute_force_no_letters py_isalpha py_isupper (str "2024: 10%") Hf).
Defined.

Lemma file_roundtrip_ascii_witness :
  ascii_classes py_isalpha py_isupper
  /\ contents demo_fs (str "msg.txt") = Some (str "Hello, World!")
  /\ Forall (fun c => py_isalpha c = true -> 65 <= c <= 90 \/ 97 <= c <= 122)
       (str "Hello, World!")
  /\ let r1 := encrypt_file py_isalpha py_isupper demo_fs (str "msg.txt") 3 None in
     let r2 := decrypt_file py_isalpha py_isupper (snd (fst r1))
                 (default_output suffix_encrypted (str "msg.txt")) 3 (Some (str "back.txt")) in
     fst (fst r1) = true /\ fst (fst r2) = true
     /\ contents (snd (fst r2)) (str "back.txt") = Some (str "Hello, World!").
Proof.
  assert (Hfs : contents demo_fs (str "msg.txt") = Some (str "Hello, World!")) by reflexivity.
  assert (Hf : Forall (fun c => py_isalpha c = true -> 65 <= c <= 90 \/ 97 <= c <= 122)
                 (str "Hello, World!")).
  { ascii_letters_only. }
  split; [exact py_ascii_classes|]; split; [exact Hfs|]; split; [exact Hf|].
  cbv zeta; split; [vm_compute; reflexivity|]; split; [vm_compute; reflexivity|].
  exact (file_roundtrip_ascii py_isalpha py_isupper demo_fs (str "msg.txt") (str "back.txt") 3
           (str "Hello, World!") py_ascii_classes Hfs Hf eq_refl eq_refl).
Defined.

Lemma file_menus_announce_written_file_witness :
  let st := mk_cli (map Line [str "msg.txt"; str "3"; str ""]) demo_fs [] in
  exists r st',
    encrypt_file_menu py_isalpha py_isupper py_isspace py_int st = (r, st')
    /\ ~ In (OutFileEncrypted (str "msg_encrypted.txt") 3) (cli_out st)
    /\ In (OutFileEncrypted (str "msg_encrypted.txt") 3) (cli_out st')
    /\ exists inp content out, contents (cli_fs st) inp = Some content
         /\ encrypt py_isalpha py_isupper content 3 = inr out
         /\ contents (cli_fs st') (str "msg_encrypted.txt") = Some out.
Proof.
  intros st.
  destruct (encrypt_file_menu py_isalpha py_isupper py_isspace py_int st) as [r st'] eqn:E.
  assert (Hnot : ~ In (OutFileEncrypted (str "msg_encrypted.txt") 3) (cli_out st))
    by (simpl; tauto).
  assert (Hin : In (OutFileEncrypted (str "msg_encrypted.txt") 3) (cli_out st')).
  { vm_compute in E; injection E as _ <-; simpl; tauto. }
  exists r, st'; split; [reflexivity|]; split; [exact Hnot|]; split; [exact Hin|].
  exact (proj1 (file_menus_announce_written_file py_isalpha py_isupper py_isspace py_int
                  st r st' (str "msg_encrypted.txt") 3) E Hnot Hin).
Defined.
